(** * RubinOT death tracker: the fetch / cache / retry server, embedded in Rocq

    The development follows the Express server [server.js] (the list cache
    [cache], the character cache [characterCache], the rate-limit log
    [requestLog], the [/api/deaths] handler with its retry loop and
    enrichment, and [getBrowser]) and, where the claims are about its
    admission check, the Railway variant of the server
    ([checkRubinOTRateLimit] and its log [rubinOTRequestLog]).

    Conventions.
    - [Date.now()] values are [Z] milliseconds.
    - A JS [Map] keyed by strings is a [gmap string _].
    - JS arrays are lists; [Array.prototype.filter] is [List.filter],
      [push] appends at the end.
    - The JS truthiness of a string ([s || d]) is "non-empty". *)

From stdpp Require Import base gmap strings list.
From Stdlib Require Import ZArith Ascii Lia Sorted.
Open Scope Z_scope.

(* ===================================================================== *)
(** ** Data model shared by the server variants *)
(* ===================================================================== *)

(** A cache entry [{ data, timestamp }] as stored by [cache.set] and
    [characterCache.set]. *)
Record cache_entry (A : Type) := mk_entry {
  data : A;
  timestamp : Z
}.
Arguments mk_entry {A} _ _.
Arguments data {A} _.
Arguments timestamp {A} _.

(** A death row parsed from the latest-deaths page
    ([{ player, playerLink, level, cause, time }]). *)
Record death := mk_death {
  player : string;
  playerLink : option string;
  level : Z;
  cause : string;
  time : string
}.

(** Character details as returned by [fetchCharacterData]. *)
Record char_data := mk_char {
  vocation : string;
  residence : string;
  accountStatus : string;
  guild : string
}.

(** The record sent to the client: the death spread with its character
    details and the bookkeeping fields [_cached] / [_needsFetch]
    ([e_needsFetch = false] stands for the absent field). *)
Record enriched := mk_enriched {
  e_death : death;
  e_char : char_data;
  e_cached : bool;
  e_needsFetch : bool
}.

(** Per-IP rate record [{ requests: [...], lastRequest }]. *)
Record ip_record := mk_ip {
  requests : list Z;
  lastRequest : Z
}.

(** JS [a || d] on strings: the empty string is falsy. *)
Definition js_or (s : string) (d : string) : string :=
  if String.eqb s "" then d else s.

(** JS [o || d] on an optional string ([undefined], [null] or [""] are
    falsy). *)
Definition js_or_opt (o : option string) (d : string) : string :=
  match o with Some s => js_or s d | None => d end.

(* ===================================================================== *)
(** ** TTL caches *)
(* ===================================================================== *)

Module TTLCache.

(** The freshness test written at every cache read of [server.js]:
    [const cached = cache.get(key);
     if (cached && Date.now() - cached.timestamp < DURATION) ...] *)
Definition cache_get {A} (duration : Z) (m : gmap string (cache_entry A))
    (key : string) (now : Z) : option A :=
  match m !! key with
  | Some e => if now - timestamp e <? duration then Some (data e) else None
  | None => None
  end.

(** [cache.set(key, { data, timestamp: Date.now() })] *)
Definition cache_set {A} (m : gmap string (cache_entry A)) (key : string)
    (v : A) (now : Z) : gmap string (cache_entry A) :=
  <[key := mk_entry v now]> m.

Definition CACHE_DURATION : Z := 3000.
Definition CHARACTER_CACHE_DURATION : Z := 86400000.

(** The list-cache part of the [setInterval] cleanup:
    [for (const [key, value] of cache.entries())
       if (now - value.timestamp > CACHE_DURATION * 3) cache.delete(key);] *)
Definition sweep_cache {A} (now : Z) (m : gmap string (cache_entry A))
    : gmap string (cache_entry A) :=
  filter (fun kv => ~ (now - timestamp kv.2 > CACHE_DURATION * 3)) m.

End TTLCache.

(* ===================================================================== *)
(** ** Rate limiting *)
(* ===================================================================== *)

Module RateLimit.

Definition RATE_LIMIT_WINDOW : Z := 60000.

(** [if (!log.has(ip)) log.set(ip, { requests: [], lastRequest: init })] *)
Definition ensure_ip (log : gmap string ip_record) (ip : string) (init : Z)
    : gmap string ip_record :=
  match log !! ip with
  | Some _ => log
  | None => <[ip := mk_ip [] init]> log
  end.

(** The record read back by [log.get(ip)] right after [ensure_ip]. *)
Definition get_ip (log : gmap string ip_record) (ip : string) (init : Z)
    : ip_record :=
  match log !! ip with
  | Some d => d
  | None => mk_ip [] init
  end.

(** [ipData.requests.filter(time => now - time < RATE_LIMIT_WINDOW)] *)
Definition recent (now : Z) (reqs : list Z) : list Z :=
  List.filter (fun t => now - t <? RATE_LIMIT_WINDOW) reqs.

(** server.js: [rateLimitMiddleware], applied to every [/api] request.
    [false] is the 429 answer, [true] is [next()]. *)
Definition rateLimitMiddleware (log : gmap string ip_record) (ip : string)
    (now : Z) : bool * gmap string ip_record :=
  let log1 := ensure_ip log ip 0 in
  let ipData := get_ip log ip 0 in
  let timeSinceLastRequest := now - lastRequest ipData in
  if (0 <? lastRequest ipData) && (timeSinceLastRequest <? 500) then
    (false, log1)
  else
    (true, <[ip := mk_ip (requests ipData) now]> log1).

Definition MAX_REQUESTS_PER_MINUTE : Z := 20.

(** server.js: [logRateLimitRequest], called before an upstream fetch.
    It only records; exceeding [MAX_REQUESTS_PER_MINUTE] logs a warning. *)
Definition logRateLimitRequest (log : gmap string ip_record) (ip : string)
    (now : Z) : gmap string ip_record :=
  let log1 := ensure_ip log ip now in
  let ipData := get_ip log ip now in
  let recentRequests := recent now (requests ipData) ++ [now] in
  <[ip := mk_ip recentRequests (lastRequest ipData)]> log1.

Definition MAX_RUBINOT_FETCHES_PER_MINUTE : Z := 30.
Definition MIN_RUBINOT_INTERVAL : Z := 2000.

(** Railway server: [checkRubinOTRateLimit]; returns the admission and the
    updated [rubinOTRequestLog]. *)
Definition checkRubinOTRateLimit (log : gmap string ip_record) (ip : string)
    (now : Z) : bool * gmap string ip_record :=
  let log1 := ensure_ip log ip 0 in
  let ipData := get_ip log ip 0 in
  let timeSinceLastFetch := now - lastRequest ipData in
  if (0 <? lastRequest ipData) && (timeSinceLastFetch <? MIN_RUBINOT_INTERVAL)
  then (false, log1)
  else
    let recentRequests := recent now (requests ipData) in
    if MAX_RUBINOT_FETCHES_PER_MINUTE <=? Z.of_nat (length recentRequests)
    then (false, log1)
    else (true, <[ip := mk_ip (recentRequests ++ [now]) now]> log1).

(** A sequence of admission calls for one identity at the given instants;
    returns the decisions in order and the final log. *)
Fixpoint admit_all (log : gmap string ip_record) (ip : string) (ts : list Z)
    : list bool * gmap string ip_record :=
  match ts with
  | [] => ([], log)
  | t :: ts' =>
      let '(b, log') := checkRubinOTRateLimit log ip t in
      let '(bs, log'') := admit_all log' ip ts' in
      (b :: bs, log'')
  end.

(** Successive admitted instants at least [MIN_RUBINOT_INTERVAL] apart. *)
Fixpoint gaps_ok (last : Z) (ts : list Z) : Prop :=
  match ts with
  | [] => True
  | t :: ts' => last + MIN_RUBINOT_INTERVAL <= t /\ gaps_ok t ts'
  end.

(** All instants pairwise less than one window apart. *)
Definition within_window (l : list Z) : Prop :=
  Forall (fun x => Forall (fun y => x - y < RATE_LIMIT_WINDOW) l) l.

(** Thirty calls 2000 ms apart starting at [T] (the last at [T + 58000]). *)
Definition thirty_spaced (T : Z) : list Z :=
  map (fun k => T + MIN_RUBINOT_INTERVAL * Z.of_nat k) (seq 0 30).

Definition T0 : Z := 1700000000000.

(** Twenty-nine calls 2000 ms apart, then one at [T0 + 59500]: thirty
    admitted timestamps in the window. *)
Definition window_filled : list Z :=
  map (fun k => T0 + MIN_RUBINOT_INTERVAL * Z.of_nat k) (seq 0 29) ++ [T0 + 59500].

Definition log_after_fill : gmap string ip_record :=
  snd (admit_all ∅ "1.2.3.4" window_filled).

End RateLimit.

(* ===================================================================== *)
(** ** server.js: the [/api/deaths] handler *)
(* ===================================================================== *)

Module ServerJs.
Import TTLCache RateLimit.

(** ASCII [toLowerCase]. *)
Definition lower_ascii (c : ascii) : ascii :=
  let n := nat_of_ascii c in
  if (65 <=? n)%nat && (n <=? 90)%nat then ascii_of_nat (n + 32) else c.

Fixpoint to_lower (s : string) : string :=
  match s with
  | EmptyString => EmptyString
  | String c s' => String (lower_ascii c) (to_lower s')
  end.

Fixpoint starts_with (p s : string) : bool :=
  match p, s with
  | EmptyString, _ => true
  | String c p', String d s' => Ascii.eqb c d && starts_with p' s'
  | String _ _, EmptyString => false
  end.

(** [s.includes(p)] *)
Fixpoint includes (s p : string) : bool :=
  match s with
  | EmptyString => starts_with p s
  | String _ s' => starts_with p s || includes s' p
  end.

(** [death.accountStatus && death.accountStatus.toLowerCase().includes('vip')] *)
Definition is_vip (e : enriched) : bool :=
  negb (String.eqb (accountStatus (e_char e)) "")
  && includes (to_lower (accountStatus (e_char e))) "vip".

Definition vip_filter (vipFilter : bool) (l : list enriched) : list enriched :=
  if vipFilter then List.filter is_vip l else l.

(** The process-wide mutable state of server.js. *)
Record server_state := mk_state {
  cache : gmap string (cache_entry (list enriched));
  characterCache : gmap string (cache_entry char_data);
  requestLog : gmap string ip_record
}.

(** The query of a [GET /api/deaths] request. *)
Record request := mk_request {
  ip : string;
  q_world : option string;
  q_minLevel : option string;
  q_min_level : option string;
  q_vip : option string
}.

Definition worldId (r : request) : string := js_or_opt (q_world r) "20".
Definition minLevel (r : request) : string :=
  js_or_opt (q_minLevel r) (js_or_opt (q_min_level r) "").
Definition vipFilter (r : request) : bool :=
  match q_vip r with Some s => String.eqb s "true" | None => false end.

(** [`deaths_${worldId}_${minLevel || 'all'}_v4`] *)
Definition cacheKey (r : request) : string :=
  ("deaths_" ++ worldId r ++ "_" ++ js_or (minLevel r) "all" ++ "_v4")%string.

(** Response: status, the headers the handler sets itself, and the body. *)
Inductive body := Deaths (l : list enriched) | ErrorBody.
Record response := mk_response {
  status : Z;
  headers : list (string * string);
  resp_body : body
}.

Definition json (l : list enriched) : response := mk_response 200 [] (Deaths l).
Definition error_500 : response := mk_response 500 [] ErrorBody.
Definition too_many_429 : response := mk_response 429 [] ErrorBody.

(** *** The retry loop *)

Definition MAX_RETRIES : nat := 3.

(** PROGRESSIVE TIMEOUTS: [(gotoTimeout, selectorTimeout)] of an attempt. *)
Definition budget (retryCount : nat) : Z * Z :=
  if (retryCount =? 0)%nat then (8000, 4000)
  else if (retryCount =? 1)%nat then (12000, 6000)
  else (20000, 8000).

(** What one attempt of the [try] block ends with: the table was found
    ([break]), only the container was found ([break], "try to parse
    anyway"), no container (the [throw] of line 645), or any other throw
    ([newPage], [goto] timeout, [evaluate], ...). *)
Inductive attempt_result := TableFound | ContainerOnly | NoContainer | AttemptThrows.

(** How the [while] loop is left: [break] after a number of attempts, the
    [return res.json(cached.data)] of the stale fallback, or a throw. *)
Inductive loop_exit (A : Type) :=
  | LoopBreak (attempts : nat)
  | LoopStale (v : A)
  | LoopThrow.
Arguments LoopBreak {A} _.
Arguments LoopStale {A} _.
Arguments LoopThrow {A}.

(** [while (retryCount <= MAX_RETRIES) { try {...} catch {...} }]; [upstream]
    gives the outcome of the attempt with a given [retryCount]; [cached] is
    [cache.get(cacheKey)] read before the loop (of any age). Also returns
    the timeout budgets of the attempts made, in order. [fuel] only makes
    the recursion structural: the loop runs at most [MAX_RETRIES + 1]
    times. Leaving the loop by its condition reaches
    [if (!page || page.isClosed()) throw], hence [LoopThrow]. *)
Fixpoint retry_loop {A} (cached : option A) (upstream : nat -> attempt_result)
    (fuel retryCount : nat) : loop_exit A * list (Z * Z) :=
  match fuel with
  | O => (LoopThrow, [])
  | S fuel' =>
      if (retryCount <=? MAX_RETRIES)%nat then
        let b := budget retryCount in
        match upstream retryCount with
        | TableFound | ContainerOnly => (LoopBreak (S retryCount), [b])
        | NoContainer | AttemptThrows =>
            let rc := S retryCount in
            if (MAX_RETRIES <? rc)%nat then
              (match cached with Some v => LoopStale v | None => LoopThrow end, [b])
            else
              let '(r, bs) := retry_loop cached upstream fuel' rc in (r, b :: bs)
        end
      else (LoopThrow, [])
  end.

Definition run_retry {A} (cached : option A) (upstream : nat -> attempt_result)
    : loop_exit A * list (Z * Z) :=
  retry_loop cached upstream (S MAX_RETRIES) 0.

(** *** Character details *)

(** The sentinel details used on every failure path. *)
Definition sentinel : char_data :=
  mk_char "Unknown" "Unknown" "Free Account" "No Guild".

(** How the character page behaves inside [fetchCharacterData]: [goto]
    throws, [waitForSelector] times out, [evaluate] throws, [evaluate]
    finds no table ([null]), or [evaluate] returns the fields it found. *)
Inductive char_page_outcome :=
  | GotoThrows
  | SelectorTimeout
  | EvaluateThrows
  | EvaluateNull
  | EvaluateData (v r a g : option string).

(** [fetchCharacterData(page, playerLink, playerName)]: never throws. *)
Definition fetchCharacterData (o : char_page_outcome) : char_data :=
  match o with
  | GotoThrows | SelectorTimeout | EvaluateThrows | EvaluateNull => sentinel
  | EvaluateData v r a g =>
      mk_char (js_or_opt v "Unknown") (js_or_opt r "Unknown")
              (js_or_opt a "Free Account") (js_or_opt g "No Guild")
  end.

(** The behaviour of one detail fetch of [characterPromises]:
    [browser.newPage()] (outside the [try]), the page set-up calls, the
    character page itself, and [charPage.close()]. *)
Record detail_env := mk_detail_env {
  newPage_ok : bool;
  setup_ok : bool;
  page_outcome : char_page_outcome;
  close_ok : bool
}.

(** [`char_${death.player.toLowerCase()}`] *)
Definition char_key (d : death) : string := ("char_" ++ to_lower (player d))%string.

(** Settlement of a JS promise; a fulfilled character promise carries the
    enriched record and the [characterCache.set] it performed. *)
Inductive settled (A : Type) := Fulfilled (v : A) | Rejected.
Arguments Fulfilled {A} _.
Arguments Rejected {A}.

Definition cache_write := option (string * cache_entry char_data).

(** One [async (death) => {...}] of [characterPromises] (lines 798-857). *)
Definition characterPromise (cc : gmap string (cache_entry char_data))
    (now : Z) (env : detail_env) (d : death) : settled (enriched * cache_write) :=
  match cache_get CHARACTER_CACHE_DURATION cc (char_key d) now with
  | Some cd => Fulfilled (mk_enriched d cd false true, None)
  | None =>
      if negb (newPage_ok env) then Rejected
      else if negb (setup_ok env) then
        Fulfilled (mk_enriched d sentinel false true, None)
      else
        let charData := fetchCharacterData (page_outcome env) in
        let w : cache_write :=
          if negb (String.eqb (vocation charData) "Unknown")
             || negb (String.eqb (residence charData) "Unknown")
          then Some (char_key d, mk_entry charData now) else None in
        if close_ok env then Fulfilled (mk_enriched d charData false true, w)
        else Fulfilled (mk_enriched d sentinel false true, w)
  end.

(** *** [Promise.all] *)

(** Each settlement is stored at the index of its promise, in the order in
    which the promises settle ([order]); [Promise.all] fulfils with the
    slots once all are fulfilled, and rejects if one rejects. *)
Fixpoint fill_slots {A} (results : list (settled A)) (order : list nat)
    (slots : list (option (settled A))) : list (option (settled A)) :=
  match order with
  | [] => slots
  | i :: order' => fill_slots results order' (<[i := results !! i]> slots)
  end.

Fixpoint collect {A} (slots : list (option (settled A))) : option (settled (list A)) :=
  match slots with
  | [] => Some (Fulfilled [])
  | Some (Fulfilled v) :: s =>
      match collect s with
      | Some (Fulfilled vs) => Some (Fulfilled (v :: vs))
      | r => r
      end
  | Some Rejected :: s =>
      match collect s with None => None | _ => Some Rejected end
  | None :: _ => None
  end.

(** [None]: still pending. *)
Definition promise_all {A} (results : list (settled A)) (order : list nat)
    : option (settled (list A)) :=
  collect (fill_slots results order (replicate (length results) None)).

(** *** Merging in source order *)

(** [deaths.findIndex(d => d.player === p)] *)
Fixpoint findIndex (deaths : list death) (p : string) : Z :=
  match deaths with
  | [] => -1
  | d :: ds =>
      if String.eqb (player d) p then 0
      else let i := findIndex ds p in if i =? -1 then -1 else i + 1
  end.

(** [Array.prototype.sort] with the comparator [(a, b) => key a - key b]:
    the ECMAScript sort is stable, so the result is the stable sort by
    [key]; written here as a stable insertion sort. *)
Fixpoint insert_by {A} (key : A -> Z) (x : A) (l : list A) : list A :=
  match l with
  | [] => [x]
  | y :: l' => if key x <=? key y then x :: l else y :: insert_by key x l'
  end.

Fixpoint sort_by {A} (key : A -> Z) (l : list A) : list A :=
  match l with
  | [] => []
  | x :: l' => insert_by key x (sort_by key l')
  end.

Definition order_key (deaths : list death) (e : enriched) : Z :=
  findIndex deaths (player (e_death e)).

(** *** The handler *)

(** Everything the handler learns from the outside world on a cache miss:
    whether [getBrowser()] resolves, the outcome of each attempt of the
    retry loop, the rows parsed from the deaths page (at most ten), the
    behaviour of the detail fetch of the [i]-th record of [deathsToFetch],
    and the order in which the character promises settle. [page.close()]
    of the deaths page is taken to succeed. *)
Record fetch_env := mk_fetch_env {
  browser_ok : bool;
  upstream : nat -> attempt_result;
  parsed : list death;
  details : nat -> detail_env;
  completion : list nat
}.

Definition with_log (st : server_state) l : server_state :=
  mk_state (cache st) (characterCache st) l.
Definition with_cache (st : server_state) c : server_state :=
  mk_state c (characterCache st) (requestLog st).
Definition with_chars (st : server_state) cc : server_state :=
  mk_state (cache st) cc (requestLog st).

(** The [characterCache.set] calls, performed in settlement order. *)
Fixpoint apply_writes (cc : gmap string (cache_entry char_data))
    (results : list (settled (enriched * cache_write))) (order : list nat)
    : gmap string (cache_entry char_data) :=
  match order with
  | [] => cc
  | i :: order' =>
      let cc' := match results !! i with
                 | Some (Fulfilled (_, Some (k, e))) => <[k := e]> cc
                 | _ => cc
                 end in
      apply_writes cc' results order'
  end.

(** [deathsWithCacheStatus] split into [cachedDeaths] ([inl]) and
    [uncachedDeaths] ([inr]). *)
Definition cache_status (cc : gmap string (cache_entry char_data)) (now : Z)
    (d : death) : enriched + death :=
  match cache_get CHARACTER_CACHE_DURATION cc (char_key d) now with
  | Some cd => inl (mk_enriched d cd true false)
  | None => inr d
  end.

Definition lefts {A B} (l : list (A + B)) : list A :=
  omap (fun s => match s with inl a => Some a | inr _ => None end) l.
Definition rights {A B} (l : list (A + B)) : list B :=
  omap (fun s => match s with inl _ => None | inr b => Some b end) l.

(** Lines 728-888: from the parsed rows to the response; [None] means
    that no response has been sent (a promise never settled). *)
Definition enrich_phase (st : server_state) (r : request) (now : Z)
    (env : fetch_env) : option response * server_state :=
  let key := cacheKey r in
  let deaths := parsed env in
  match deaths with
  | [] => (Some (json []), with_cache st (cache_set (cache st) key [] now))
  | _ :: _ =>
    let cc := characterCache st in
    let withStatus := map (cache_status cc now) deaths in
    let cachedDeaths := lefts withStatus in
    let uncachedDeaths := rights withStatus in
    let deathsToFetch := firstn 3 uncachedDeaths in
    let quickDeaths :=
      map (fun d => mk_enriched d sentinel false true) (skipn 3 uncachedDeaths) in
    match deathsToFetch with
    | [] =>
        let allDeaths := sort_by (order_key deaths) cachedDeaths in
        (Some (json allDeaths), with_cache st (cache_set (cache st) key allDeaths now))
    | _ :: _ =>
        let results :=
          imap (fun i d => characterPromise cc now (details env i) d) deathsToFetch in
        let st' := with_chars st (apply_writes cc results (completion env)) in
        match promise_all results (completion env) with
        | Some (Fulfilled newly) =>
            let allFetchedDeaths := cachedDeaths ++ map fst newly ++ quickDeaths in
            let sorted := sort_by (order_key deaths) allFetchedDeaths in
            (Some (json (vip_filter (vipFilter r) sorted)),
             with_cache st' (cache_set (cache st') key sorted now))
        | Some Rejected => (Some error_500, st')
        | None => (None, st')
        end
    end
  end.

(** [rateLimitMiddleware] followed by the [/api/deaths] handler. The
    middleware reads the clock at [t_mw], the handler at [t]. *)
Definition handle_deaths (st : server_state) (r : request) (t_mw t : Z)
    (env : fetch_env) : option response * server_state :=
  let '(ok, log1) := rateLimitMiddleware (requestLog st) (ip r) t_mw in
  let st1 := with_log st log1 in
  if negb ok then (Some too_many_429, st1)
  else
    let key := cacheKey r in
    match cache_get CACHE_DURATION (cache st1) key t with
    | Some v => (Some (json (vip_filter (vipFilter r) v)), st1)
    | None =>
        let st2 :=
          if String.eqb (ip r) "" then st1
          else with_log st1 (logRateLimitRequest log1 (ip r) t) in
        if negb (browser_ok env) then (Some error_500, st2)
        else
          let cached := data <$> cache st1 !! key in
          match fst (run_retry cached (upstream env)) with
          | LoopThrow => (Some error_500, st2)
          | LoopStale v => (Some (json (vip_filter (vipFilter r) v)), st2)
          | LoopBreak _ => enrich_phase st2 r t env
          end
    end.


(** *** Mock upstreams and inputs used by the properties *)

(** A mock deaths page failing attempts [1 .. N-1] and succeeding on
    attempt [N] (attempt [k] runs with [retryCount = k - 1]). *)
Definition fails_then_succeeds (N : nat) : nat -> attempt_result :=
  fun retryCount => if (S retryCount <? N)%nat then AttemptThrows else TableFound.

Definition attempt_fails (a : attempt_result) : bool :=
  match a with NoContainer | AttemptThrows => true | TableFound | ContainerOnly => false end.

(** The budgets of the four attempts, in order. *)
Definition all_budgets : list (Z * Z) := map budget (seq 0 (S MAX_RETRIES)).


(** A request from "1.2.3.4" for world 20, all levels, no VIP filter. *)
Definition req20 : request := mk_request "1.2.3.4" (Some "20") None None None.

Definition sample_death : death :=
  mk_death "Alice" (Some "https://rubinot.com.br/?subtopic=characters&name=Alice")
           350 "a dragon" "18.10.2026 12:00:00".

Definition sample_list : list enriched :=
  [mk_enriched sample_death (mk_char "Knight" "Thais" "Free Account" "No Guild") true false].

(** Server state holding [sample_list] in the list cache, stored at [stored]. *)
Definition state_with_list (stored : Z) : server_state :=
  mk_state {[ cacheKey req20 := mk_entry sample_list stored ]} ∅ ∅.

(** Every attempt against the deaths page fails. *)
Definition env_all_fail : fetch_env :=
  mk_fetch_env true (fun _ => AttemptThrows) []
               (fun _ => mk_detail_env true true GotoThrows true) [].


(** [deathsToFetch] of [enrich_phase]. *)
Definition deathsToFetch_of (cc : gmap string (cache_entry char_data)) (now : Z)
    (deaths : list death) : list death :=
  firstn 3 (rights (map (cache_status cc now) deaths)).

Definition with_completion (env : fetch_env) (order : list nat) : fetch_env :=
  mk_fetch_env (browser_ok env) (upstream env) (parsed env) (details env) order.

(** The same character "Bob" died twice among the latest deaths, with
    "Carol" dying in between (newest first). *)
Definition bob_1 : death :=
  mk_death "Bob" (Some "https://rubinot.com.br/?subtopic=characters&name=Bob")
           201 "a hydra" "18.10.2026 12:05:00".
Definition carol : death :=
  mk_death "Carol" (Some "https://rubinot.com.br/?subtopic=characters&name=Carol")
           120 "a minotaur" "18.10.2026 12:04:00".
Definition bob_2 : death :=
  mk_death "Bob" (Some "https://rubinot.com.br/?subtopic=characters&name=Bob")
           200 "a dragon lord" "18.10.2026 12:01:00".

Definition empty_state : server_state := mk_state ∅ ∅ ∅.

(** Every detail page loads and reports a vocation and a residence. *)
Definition detail_ok : detail_env :=
  mk_detail_env true true (EvaluateData (Some "Knight") (Some "Thais") None None) true.

Definition knight_thais : char_data := mk_char "Knight" "Thais" "Free Account" "No Guild".

(** The deaths page yields [rows]; detail fetches behave as [det]. *)
Definition env_rows (rows : list death) (det : nat -> detail_env) (order : list nat)
    : fetch_env :=
  mk_fetch_env true (fun _ => TableFound) rows det order.

End ServerJs.

(* ===================================================================== *)
(** ** server.js: the shared browser ([getBrowser]) *)
(* ===================================================================== *)

(** Node runs JS callbacks to completion, so a call of [getBrowser] is a
    sequence of atomic segments separated by its [await]s: the synchronous
    prefix (connected check, [browserLaunching] check and set), the
    500 ms sleep before [return getBrowser()], and the [await
    puppeteer.launch(...)]. The model is a step relation over the module
    state ([sharedBrowser], [browserLaunching]) plus the browsers launched
    so far (numbered by [next_id]; [live] are those with [isConnected()])
    and the pending calls. *)
Module Browser.

Inductive task :=
  | Entry                 (* transient: about to run the prefix *)
  | Sleeping              (* awaiting the 500 ms timer *)
  | Launching             (* awaiting puppeteer.launch *)
  | Returned (b : nat)    (* resolved with browser b *)
  | Threw.                (* rejected: the launch failed *)

Record bstate := mk_bstate {
  sharedBrowser : option nat;
  browserLaunching : bool;
  next_id : nat;
  live : gset nat;
  tasks : list task
}.

Definition init : bstate := mk_bstate None false 0 ∅ [].

Definition set_task (st : bstate) (i : nat) (t : task) : bstate :=
  mk_bstate (sharedBrowser st) (browserLaunching st) (next_id st) (live st)
            (<[i := t]> (tasks st)).

(** [if (browserLaunching) { await sleep(500); return getBrowser(); }
     browserLaunching = true; sharedBrowser = await puppeteer.launch(...)] *)
Definition launch_or_wait (st : bstate) (i : nat) : bstate :=
  if browserLaunching st then set_task st i Sleeping
  else
    mk_bstate (sharedBrowser st) true (next_id st) (live st)
              (<[i := Launching]> (tasks st)).

(** The synchronous prefix of [getBrowser] run by task [i]:
    [if (sharedBrowser) { if (sharedBrowser.isConnected()) return sharedBrowser; }]
    then [launch_or_wait]. *)
Definition run_prefix (st : bstate) (i : nat) : bstate :=
  match sharedBrowser st with
  | Some b => if bool_decide (b ∈ live st) then set_task st i (Returned b)
              else launch_or_wait st i
  | None => launch_or_wait st i
  end.

(** A new caller (a request handler or the pre-warm) calls [getBrowser()]. *)
Definition call (st : bstate) : bstate :=
  run_prefix (mk_bstate (sharedBrowser st) (browserLaunching st) (next_id st)
                        (live st) (tasks st ++ [Entry]))
             (length (tasks st)).

(** The 500 ms timer fires: [return getBrowser()] runs the prefix again. *)
Definition wake (st : bstate) (i : nat) : bstate := run_prefix st i.

(** [puppeteer.launch] resolves with a fresh, connected browser:
    [sharedBrowser = ...; browserLaunching = false; return sharedBrowser]. *)
Definition launch_ok (st : bstate) (i : nat) : bstate :=
  mk_bstate (Some (next_id st)) false (S (next_id st)) ({[next_id st]} ∪ live st)
            (<[i := Returned (next_id st)]> (tasks st)).

(** [puppeteer.launch] rejects: [browserLaunching = false; throw error]. *)
Definition launch_fail (st : bstate) (i : nat) : bstate :=
  mk_bstate (sharedBrowser st) false (next_id st) (live st)
            (<[i := Threw]> (tasks st)).

(** A browser dies (disconnects) on its own. *)
Definition disconnect (st : bstate) (b : nat) : bstate :=
  mk_bstate (sharedBrowser st) (browserLaunching st) (next_id st)
            (live st ∖ {[b]}) (tasks st).

Inductive step : bstate -> bstate -> Prop :=
  | step_call st : step st (call st)
  | step_wake st i : tasks st !! i = Some Sleeping -> step st (wake st i)
  | step_launch_ok st i : tasks st !! i = Some Launching -> step st (launch_ok st i)
  | step_launch_fail st i : tasks st !! i = Some Launching -> step st (launch_fail st i)
  | step_disconnect st b : b ∈ live st -> step st (disconnect st b).

Inductive reachable : bstate -> Prop :=
  | reach_init : reachable init
  | reach_step st st' : reachable st -> step st st' -> reachable st'.

Definition is_launching (t : task) : bool :=
  match t with Launching => true | _ => false end.

(** Number of [puppeteer.launch] calls in flight. *)
Definition launches_in_flight (st : bstate) : nat :=
  length (List.filter is_launching (tasks st)).

(** The browsers [sharedBrowser] can point to. *)
Definition shared_set (st : bstate) : gset nat :=
  match sharedBrowser st with Some b => {[b]} | None => ∅ end.

(** The invariant of [getBrowser]: [browserLaunching] is set exactly while
    one launch is pending, the only live browser is the shared one, and no
    browser is live while a launch is pending. *)
Definition binv (st : bstate) : Prop :=
  launches_in_flight st = (if browserLaunching st then 1 else 0)%nat /\
  live st ⊆ shared_set st /\
  (browserLaunching st = true -> live st = ∅).

End Browser.


(* ===================================================================== *)
(** ** server.js: the periodic cleanup ([setInterval], every 60 s) *)
(* ===================================================================== *)

Module Cleanup.
Import TTLCache RateLimit ServerJs.

(** [const entries = Array.from(characterCache.entries());
     entries.sort((a, b) => a[1].timestamp - b[1].timestamp);
     entries.slice(0, 30).forEach(([key]) => characterCache.delete(key));]
    [entries] lists the map in its insertion order; the sort is stable. *)
Definition evicted_keys {A} (entries : list (string * cache_entry A)) : list string :=
  map fst (take 30 (sort_by (fun kv => timestamp kv.2) entries)).

(** [if (characterCache.size > 100) { ... }] *)
Definition sweep_characters {A} (entries : list (string * cache_entry A))
    (m : gmap string (cache_entry A)) : gmap string (cache_entry A) :=
  if (100 <? size m)%nat then foldl (fun acc k => delete k acc) m (evicted_keys entries)
  else m.

(** The rate-log part of the cleanup, for one record (the same in both
    servers): the requests are cut to the trailing window, and the record
    is deleted when none is left and its [lastRequest] is older than the
    window. [None] is [requestLog.delete(ip)]. *)
Definition sweep_log_entry (now : Z) (d : ip_record) : option ip_record :=
  let recentRequests := recent now (requests d) in
  if (length recentRequests =? 0)%nat && (RATE_LIMIT_WINDOW <? now - lastRequest d)
  then None
  else Some (mk_ip recentRequests (lastRequest d)).

Definition sweep_log (now : Z) (log : gmap string ip_record) : gmap string ip_record :=
  omap (sweep_log_entry now) log.

(** How a rate log relates to its sweep at [now], record by record: a kept
    record has its requests cut to the window of [now], a deleted record had
    no request in that window and a [lastRequest] older than the window. *)
Definition rec_rel (now : Z) (o o' : option ip_record) : Prop :=
  match o, o' with
  | Some d, Some d' => d' = mk_ip (recent now (requests d)) (lastRequest d)
  | Some d, None => recent now (requests d) = [] /\ RATE_LIMIT_WINDOW < now - lastRequest d
  | None, None => True
  | None, Some _ => False
  end.

Definition swept_rel (now : Z) (log log' : gmap string ip_record) : Prop :=
  forall ip, rec_rel now (log !! ip) (log' !! ip).

(** A character cache of 101 entries: one-character keys for the codes
    0 to 100, the entry of code [k] stored at time [k]. *)
Definition big_cache : gmap string (cache_entry unit) :=
  list_to_map (map (fun k => (String (ascii_of_nat k) EmptyString, mk_entry tt (Z.of_nat k)))
                   (seq 0 101)).

(** The first key of [big_cache], stored at time 0. *)
Definition k0 : string := String (ascii_of_nat 0) EmptyString.

End Cleanup.

(* ===================================================================== *)
(** ** Sequences of rate-limit calls for one identity *)
(* ===================================================================== *)

Module RateSeq.
Import RateLimit.

(** server.js: successive requests of one IP through [rateLimitMiddleware]. *)
Fixpoint mw_all (log : gmap string ip_record) (ip : string) (ts : list Z)
    : list bool * gmap string ip_record :=
  match ts with
  | [] => ([], log)
  | t :: ts' =>
      let '(b, log') := rateLimitMiddleware log ip t in
      let '(bs, log'') := mw_all log' ip ts' in
      (b :: bs, log'')
  end.

(** server.js: successive [logRateLimitRequest(ip)] calls. *)
Fixpoint log_all (log : gmap string ip_record) (ip : string) (ts : list Z)
    : gmap string ip_record :=
  match ts with
  | [] => log
  | t :: ts' => log_all (logRateLimitRequest log ip t) ip ts'
  end.

(** The instants whose call was admitted. *)
Fixpoint admitted_times (ts : list Z) (bs : list bool) : list Z :=
  match ts, bs with
  | t :: ts', b :: bs' => if b then t :: admitted_times ts' bs' else admitted_times ts' bs'
  | _, _ => []
  end.

(** Each instant at least [gap] after the previous one; [last <= 0] stands
    for "no previous call" ([lastRequest: 0]). *)
Fixpoint spaced (gap last : Z) (ts : list Z) : Prop :=
  match ts with
  | [] => True
  | t :: ts' => (last <= 0 \/ last + gap <= t) /\ spaced gap t ts'
  end.

(** A server.js request as the rate log sees it: [rateLimitMiddleware] at
    [rq_mw_time]; when it lets the request through and the handler misses
    its cache, [logRateLimitRequest] at [rq_time], in the same tick (the
    handlers reach it with no [await] in between). *)
Record srv_call := mk_srv_call {
  rq_ip : string;
  rq_mw_time : Z;
  rq_time : Z;
  rq_miss : bool
}.

Definition srv_request (log : gmap string ip_record) (q : srv_call)
    : bool * gmap string ip_record :=
  let '(ok, log1) := rateLimitMiddleware log (rq_ip q) (rq_mw_time q) in
  (ok, if ok && rq_miss q then logRateLimitRequest log1 (rq_ip q) (rq_time q) else log1).

(** Successive server.js requests (of any IPs); the decisions in order. *)
Fixpoint srv_all (log : gmap string ip_record) (qs : list srv_call)
    : list bool * gmap string ip_record :=
  match qs with
  | [] => ([], log)
  | q :: qs' =>
      let '(b, log') := srv_request log q in
      let '(bs, log'') := srv_all log' qs' in
      (b :: bs, log'')
  end.

(** One IP whose only request, at 1000, is long gone by 70000; two
    requests of it 200 ms apart, both missing the cache. *)
Definition stale_log : gmap string ip_record := {[ "1.2.3.4" := mk_ip [1000] 1000 ]}.

Definition two_quick_calls : list srv_call :=
  [mk_srv_call "1.2.3.4" 70000 70000 true; mk_srv_call "1.2.3.4" 70200 70200 true].

(** Twenty-four further calls, one per second after [T0]. *)
Definition calls_24 : list Z := map (fun k => T0 + 1000 * Z.of_nat k) (seq 1 24).

End RateSeq.


Module DeathsExtra.
Import TTLCache ServerJs.

(** The same request with another [vip] query parameter. *)
Definition with_vip (r : request) (v : option string) : request :=
  mk_request (ip r) (q_world r) (q_minLevel r) (q_min_level r) v.

(** What [characterCache.set] is allowed to store in server.js: details
    with a known vocation or residence. *)
Definition informative (e : cache_entry char_data) : Prop :=
  vocation (data e) <> "Unknown" \/ residence (data e) <> "Unknown".

(** A VIP request for the rows [bob_1; carol; bob_2] whose three
    characters are all in the character cache; only Bob is VIP. *)
Definition req20_vip : request := with_vip req20 (Some "true").

Definition vip_knight : char_data := mk_char "Knight" "Thais" "VIP Account" "No Guild".

Definition cached_chars : gmap string (cache_entry char_data) :=
  {[ char_key bob_1 := mk_entry vip_knight 1000;
     char_key carol := mk_entry knight_thais 1000 ]}.

End DeathsExtra.


Module Rows.
Import ServerJs.

(** One [<tr>] of the latest-deaths table, as the parse loops of
    server.js and the Railway server read it: [tds.length], the trimmed
    [innerText] of [tds[1]], the [href] and trimmed [innerText] of the link
    in [tds[2]] ([None] without a link), the level found by
    [text.match(/level\s*(\d+)/i)] and [parseInt] ([None] without a match),
    and the cause left by the two [replace] calls. *)
Record row := mk_row {
  tds_count : nat;
  row_time : string;
  link_href : option string;
  link_text : option string;
  level_match : option Z;
  row_cause : string
}.

(** [x || null] on an optional string. *)
Definition or_null (o : option string) : option string :=
  match o with Some s => if String.eqb s "" then None else Some s | None => None end.

(** The body of the loop up to [arr.push]: [None] for a [continue]. *)
Definition parse_row (rw : row) : option death :=
  if (tds_count rw <? 3)%nat then None
  else match level_match rw, or_null (link_text rw) with
       | Some lvl, Some p =>
           Some (mk_death p (or_null (link_href rw)) lvl (row_cause rw) (row_time rw))
       | _, _ => None
       end.

(** [for (let i = 0; i < rows.length && count < MAX_DEATHS; i++) {...}]:
    [mk] builds the pushed object from the parsed fields (server.js
    [/api/deaths] pushes them as they are, [/api/deaths-fast] and the
    Railway server add placeholder details). *)
Fixpoint parse_loop {A} (mk : death -> A) (MAX_DEATHS count : nat) (rows : list row)
    : list A :=
  match rows with
  | [] => []
  | rw :: rows' =>
      if (count <? MAX_DEATHS)%nat then
        match parse_row rw with
        | Some d => mk d :: parse_loop mk MAX_DEATHS (S count) rows'
        | None => parse_loop mk MAX_DEATHS count rows'
        end
      else []
  end.

End Rows.

(* ===================================================================== *)
(** ** The Railway server ([src/unnamed/part_004]): [/api/deaths] *)
(* ===================================================================== *)

Module Railway.
Import TTLCache ServerJs Rows.

(** A death object of the Railway server: the parsed fields and the four
    detail fields the handler overwrites in place. *)
Record rdeath := mk_rdeath {
  r_death : death;
  r_char : char_data
}.

(** The object [fetchCharacterData] resolves with:
    [{ player: pName, vocation, residence, accountStatus, guild }]. *)
Record rchar := mk_rchar {
  c_player : string;
  c_data : char_data
}.

Record rstate := mk_rstate {
  rcache : gmap string (cache_entry (list rdeath));
  rcharacterCache : gmap string (cache_entry rchar)
}.

(** The object pushed by the parse loop of [fetchDeathsFromRubinOT]. *)
Definition placeholder (d : death) : rdeath :=
  mk_rdeath d (mk_char "Unknown" "Loading..." "Loading..." "").

Definition MAX_DEATHS : nat := 3.

(** [`char_${playerName.toLowerCase()}`] *)
Definition rchar_key (p : string) : string := ("char_" ++ to_lower p)%string.

(** [death.accountStatus && death.accountStatus.toLowerCase().includes('vip')] *)
Definition rvip (d : rdeath) : bool :=
  negb (String.eqb (accountStatus (r_char d)) "")
  && includes (to_lower (accountStatus (r_char d))) "vip".

Definition rvip_filter (vipFilter : bool) (l : list rdeath) : list rdeath :=
  if vipFilter then List.filter rvip l else l.

(** [death.vocation = c.vocation || "Unknown"; ...; death.guild = c.guild || ""] *)
Definition fill (d : rdeath) (c : char_data) : rdeath :=
  mk_rdeath (r_death d)
    (mk_char (js_or (vocation c) "Unknown") (js_or (residence c) "Unknown")
             (js_or (accountStatus c) "Unknown") (js_or (guild c) "")).

(** [characterData.find(c => c && c.player === death.player)] *)
Fixpoint find_char (cs : list (option rchar)) (p : string) : option rchar :=
  match cs with
  | [] => None
  | Some c :: cs' => if String.eqb (c_player c) p then Some c else find_char cs' p
  | None :: cs' => find_char cs' p
  end.

Definition rcache_write := option (string * cache_entry rchar).

(** [fetchCharacterData(playerName)]. [outcome] is what the character page
    gives: [Some cd] when [getBrowser], [newPage], the page set-up, [goto],
    [waitForSelector], [evaluate] and [close] all succeed and [evaluate]
    finds the container, [None] when one of them throws or the container is
    missing (the function then resolves with [null]). *)
Definition fetchCharacterData (cc : gmap string (cache_entry rchar)) (now : Z)
    (outcome : option char_data) (playerName : string) : option rchar * rcache_write :=
  let key := rchar_key playerName in
  let fetch :=
    match outcome with
    | Some cd => let c := mk_rchar playerName cd in (Some c, Some (key, mk_entry c now))
    | None => (None, None)
    end in
  match cc !! key with
  | Some e => if now - timestamp e <? CHARACTER_CACHE_DURATION then (Some (data e), None)
              else fetch
  | None => fetch
  end.

(** The [characterCache.set] calls, in the order the fetches finish. *)
Fixpoint apply_rwrites (cc : gmap string (cache_entry rchar))
    (writes : list rcache_write) (order : list nat) : gmap string (cache_entry rchar) :=
  match order with
  | [] => cc
  | i :: order' =>
      let cc' := match writes !! i with
                 | Some (Some (k, e)) => <[k := e]> cc
                 | _ => cc
                 end in
      apply_rwrites cc' writes order'
  end.

Inductive header :=
  | CacheControl (v : string)
  | ETag (key : string) (ts : Z)     (* [`"${cacheKey}-${ts}"`] *)
  | XStaleCache (v : string).

Inductive rbody := RDeaths (l : list rdeath) | RError.

Record rresponse := mk_rresp {
  r_status : Z;
  r_headers : list header;
  r_body : rbody
}.

(** What the handler learns from the outside world on a cache miss: the
    table rows of the page [queueRubinOTRequest] fetched ([None] when the
    queued fetch rejects), the outcome of the [i]-th character fetch, and
    the order in which those fetches finish. *)
Record renv := mk_renv {
  queued : option (list row);
  char_outcome : nat -> option char_data;
  char_order : list nat
}.

(** The [try] block and its [catch] (lines 540-620). *)
Definition rfetch (st : rstate) (r : request) (now : Z) (env : renv)
    (cached : option (cache_entry (list rdeath))) : rresponse * rstate :=
  let key := cacheKey r in
  match queued env with
  | None =>
      match cached with
      | Some c => (mk_rresp 200 [XStaleCache "true"]
                            (RDeaths (rvip_filter (vipFilter r) (data c))), st)
      | None => (mk_rresp 500 [] RError, st)
      end
  | Some rows =>
      let deaths := parse_loop placeholder MAX_DEATHS 0 rows in
      let cc := rcharacterCache st in
      let uncachedDeaths :=
        List.filter (fun d => negb (bool_decide (is_Some (cc !! rchar_key (player (r_death d))))))
                    deaths in
      let fetched :=
        imap (fun i d => fetchCharacterData cc now (char_outcome env i) (player (r_death d)))
             uncachedDeaths in
      let cc' := apply_rwrites cc (map snd fetched) (char_order env) in
      let deaths1 :=
        if (0 <? length uncachedDeaths)%nat then
          map (fun d => match find_char (map fst fetched) (player (r_death d)) with
                        | Some c => fill d (c_data c)
                        | None => d
                        end) deaths
        else deaths in
      let deaths2 :=
        map (fun d => match cc' !! rchar_key (player (r_death d)) with
                      | Some e => fill d (c_data (data e))
                      | None => d
                      end) deaths1 in
      let finalDeaths := rvip_filter (vipFilter r) deaths2 in
      (mk_rresp 200 [CacheControl "public, max-age=1"; ETag key now] (RDeaths finalDeaths),
       mk_rstate (cache_set (rcache st) key finalDeaths now) cc')
  end.

(** [app.get('/api/deaths', ...)] of the Railway server (lines 505-620);
    its [rateLimitMiddleware] lets every request through. *)
Definition rhandle (st : rstate) (r : request) (now : Z) (env : renv) : rresponse * rstate :=
  let key := cacheKey r in
  let cached := rcache st !! key in
  match cached with
  | Some c =>
      if now - timestamp c <? CACHE_DURATION then
        (mk_rresp 200 [CacheControl "public, max-age=1"; ETag key (timestamp c)]
                  (RDeaths (rvip_filter (vipFilter r) (data c))), st)
      else rfetch st r now env cached
  | None => rfetch st r now env cached
  end.

(** Samples. *)
Definition row_of (d : death) : row :=
  mk_row 3 (time d) (playerLink d) (Some (player d)) (Some (level d)) (cause d).

Definition header_row : row := mk_row 0 "" None None None "".

Definition dave : death :=
  mk_death "Dave" (Some "https://rubinot.com.br/?subtopic=characters&name=Dave")
           400 "a demon" "18.10.2026 12:06:00".

Definition vip_details : char_data := mk_char "Knight" "Thais" "VIP Account" "".

Definition rempty : rstate := mk_rstate ∅ ∅.

(** A cached entry for Bob, expired long ago. *)
Definition old_bob : gmap string (cache_entry rchar) :=
  {[ rchar_key "Bob" := mk_entry (mk_rchar "Bob" vip_details) 0 ]}.

(** A state whose list cache holds an empty list for [req20], stored at
    time 1000, and an environment where the queued fetch fails. *)
Definition rstate_with_list : rstate :=
  mk_rstate {[ cacheKey req20 := mk_entry [] 1000 ]} ∅.

Definition renv_fail : renv := mk_renv None (fun _ => None) [].

End Railway.


(* ===================================================================== *)
(** ** server.js: [/api/deaths-fast] and [/api/latest-death] *)
(* ===================================================================== *)

Module FastLatest.
Import TTLCache RateLimit ServerJs Rows.

Definition FAST_DEATHS_CACHE : Z := 2000.
Definition LATEST_DEATH_CACHE : Z := 2000.

(** The object [/api/deaths-fast] pushes: the parsed fields and four
    ["Loading..."] placeholders. *)
Definition fast_record (d : death) : death * char_data :=
  (d, mk_char "Loading..." "Loading..." "Loading..." "Loading...").

(** [{ player, playerLink, death, timestamp }] built by the page script of
    [/api/latest-death]. *)
Record latest_death := mk_latest {
  ld_player : string;
  ld_playerLink : string;
  ld_death : string;
  ld_timestamp : Z
}.

(** A row of the latest-deaths table as that page script reads it:
    [cells.length], the trimmed [textContent] and the [href] of the link in
    [cells[0]] ([None] without a link), and the trimmed [textContent] of
    [cells[1]]. *)
Record lrow := mk_lrow {
  l_cells : nat;
  l_link_text : option string;
  l_link_href : option string;
  l_text : string
}.

(** The page script: [null] with fewer than two rows or cells, else the
    record of [rows[1]]. *)
Definition latest_eval (rows : list lrow) (now : Z) : option latest_death :=
  match rows with
  | _ :: rw :: _ =>
      if (l_cells rw <? 2)%nat then None
      else Some (mk_latest (js_or_opt (l_link_text rw) "Unknown")
                           (js_or_opt (l_link_href rw) "") (l_text rw) now)
  | _ => None
  end.

(** [fetchSingleCharacter(browser, death)] (lines 268-327): the result is
    [{...death, ...details}] and the [characterCache.set] it performed; it
    rejects when [browser.newPage()], outside its [try], rejects. *)
Definition fetchSingleCharacter (cc : gmap string (cache_entry char_data)) (now : Z)
    (env : detail_env) (ld : latest_death)
    : settled (latest_death * char_data * cache_write) :=
  let charCacheKey := ("char_" ++ to_lower (ld_player ld))%string in
  match cache_get CHARACTER_CACHE_DURATION cc charCacheKey now with
  | Some cd => Fulfilled (ld, cd, None)
  | None =>
      if negb (newPage_ok env) then Rejected
      else if negb (setup_ok env) then Fulfilled (ld, sentinel, None)
      else
        let charData := fetchCharacterData (page_outcome env) in
        let w : cache_write :=
          if negb (String.eqb (vocation charData) "Unknown")
             || negb (String.eqb (residence charData) "Unknown")
          then Some (charCacheKey, mk_entry charData now) else None in
        if close_ok env then Fulfilled (ld, charData, w)
        else Fulfilled (ld, sentinel, w)
  end.

(** The server state with the two single-slot caches of these endpoints. *)
Record app_state := mk_app {
  srv : server_state;
  fastDeathsCache : option (string * list (death * char_data));
  fastDeathsTimestamp : Z;
  latestDeathCache : option (latest_death * char_data);
  latestDeathTimestamp : Z
}.

Definition with_srv (st : app_state) (s : server_state) : app_state :=
  mk_app s (fastDeathsCache st) (fastDeathsTimestamp st)
         (latestDeathCache st) (latestDeathTimestamp st).
Definition with_fast (st : app_state) c t : app_state :=
  mk_app (srv st) c t (latestDeathCache st) (latestDeathTimestamp st).
Definition with_latest (st : app_state) c t : app_state :=
  mk_app (srv st) (fastDeathsCache st) (fastDeathsTimestamp st) c t.

Inductive api_response :=
  | FastDeaths (l : list (death * char_data))
  | LatestDeath (x : latest_death * char_data)
  | NoDeathsFound                   (* [{ error: "No deaths found" }], status 200 *)
  | Error500
  | TooMany429.

(** What these handlers learn from the outside world on a miss: whether
    [getBrowser()] resolves, whether the page calls ([newPage], set-up,
    [goto], [evaluate], [close]) succeed, the table rows of the page of a
    world (the deaths page of [/api/deaths-fast] also depends on the level
    filter), and the behaviour of the character page. *)
Record api_env := mk_api_env {
  a_browser_ok : bool;
  a_page_ok : bool;
  fast_rows : string -> string -> list row;
  latest_rows : string -> list lrow;
  a_detail : detail_env
}.

(** [`${worldId}_${minLevel || 'all'}`] *)
Definition fastCacheKey (r : request) : string :=
  (worldId r ++ "_" ++ js_or (minLevel r) "all")%string.

(** [fastDeathsCache && fastDeathsCache.key === fastCacheKey &&
     Date.now() - fastDeathsTimestamp < FAST_DEATHS_CACHE] *)
Definition fast_hit (st : app_state) (r : request) (now : Z) : bool :=
  match fastDeathsCache st with
  | Some (k, _) => String.eqb k (fastCacheKey r) && (now - fastDeathsTimestamp st <? FAST_DEATHS_CACHE)
  | None => false
  end.

(** [latestDeathCache && Date.now() - latestDeathTimestamp < LATEST_DEATH_CACHE] *)
Definition latest_hit (st : app_state) (now : Z) : bool :=
  match latestDeathCache st with
  | Some _ => now - latestDeathTimestamp st <? LATEST_DEATH_CACHE
  | None => false
  end.

(** [rateLimitMiddleware], then [logRateLimitRequest] on a miss. *)
Definition pass_middleware (st : app_state) (r : request) (t_mw : Z) : bool * app_state :=
  let '(ok, log1) := rateLimitMiddleware (requestLog (srv st)) (ip r) t_mw in
  (ok, with_srv st (with_log (srv st) log1)).

Definition log_miss (st : app_state) (r : request) (t : Z) : app_state :=
  if String.eqb (ip r) "" then st
  else with_srv st (with_log (srv st) (logRateLimitRequest (requestLog (srv st)) (ip r) t)).

(** The miss path of [/api/deaths-fast], after the middleware. *)
Definition fast_miss (st1 : app_state) (r : request) (t : Z) (env : api_env)
    : option api_response * app_state :=
  let st2 := log_miss st1 r t in
  if negb (a_browser_ok env && a_page_ok env) then (Some Error500, st2)
  else
    let deaths := parse_loop fast_record 10 0 (fast_rows env (worldId r) (minLevel r)) in
    (Some (FastDeaths deaths), with_fast st2 (Some (fastCacheKey r, deaths)) t).

(** [app.get('/api/deaths-fast', ...)] (lines 332-440). *)
Definition handle_fast (st : app_state) (r : request) (t_mw t : Z) (env : api_env)
    : option api_response * app_state :=
  let '(ok, st1) := pass_middleware st r t_mw in
  if negb ok then (Some TooMany429, st1)
  else
    match fastDeathsCache st1 with
    | Some (_, ds) => if fast_hit st1 r t then (Some (FastDeaths ds), st1)
                      else fast_miss st1 r t env
    | None => fast_miss st1 r t env
    end.

(** The miss path of [/api/latest-death], after the middleware. *)
Definition latest_miss (st1 : app_state) (r : request) (t : Z) (env : api_env)
    : option api_response * app_state :=
  let st2 := log_miss st1 r t in
  if negb (a_browser_ok env && a_page_ok env) then (Some Error500, st2)
  else match latest_eval (latest_rows env (worldId r)) t with
  | None => (Some NoDeathsFound, st2)
  | Some ld =>
      match fetchSingleCharacter (characterCache (srv st2)) t (a_detail env) ld with
      | Rejected => (Some Error500, st2)
      | Fulfilled (ld', cd, w) =>
          let cc' := match w with
                     | Some (k, e) => <[k := e]> (characterCache (srv st2))
                     | None => characterCache (srv st2)
                     end in
          (Some (LatestDeath (ld', cd)),
           with_latest (with_srv st2 (with_chars (srv st2) cc')) (Some (ld', cd)) t)
      end
  end.

(** [app.get('/api/latest-death', ...)] (lines 443-523). *)
Definition handle_latest (st : app_state) (r : request) (t_mw t : Z) (env : api_env)
    : option api_response * app_state :=
  let '(ok, st1) := pass_middleware st r t_mw in
  if negb ok then (Some TooMany429, st1)
  else
    match latestDeathCache st1 with
    | Some x => if latest_hit st1 t then (Some (LatestDeath x), st1)
                else latest_miss st1 r t env
    | None => latest_miss st1 r t env
    end.

(** Samples: two worlds whose latest-deaths pages show different deaths. *)
Definition world_rows (w : string) : list lrow :=
  [mk_lrow 2 None None "Death";
   mk_lrow 2 (Some (if String.eqb w "20" then "Bob" else "Zed")) None "Died at Level 200"].

Definition env_worlds : api_env :=
  mk_api_env true true (fun _ _ => []) world_rows detail_ok.

Definition app0 : app_state := mk_app empty_state None 0 None 0.

Definition req_world (w : string) (ip : string) : request :=
  mk_request ip (Some w) None None None.

End FastLatest.


(* ===================================================================== *)
(** ** The Railway server: the shared browser ([getBrowser]) *)
(* ===================================================================== *)

(** [async function getBrowser()] of the Railway server (lines 356-396):
    [if (sharedBrowser && sharedBrowser.isConnected()) return sharedBrowser;
     if (browserLaunching) {
       while (browserLaunching) await sleep(100);
       return sharedBrowser; }
     browserLaunching = true;
     try { sharedBrowser = await puppeteer.launch(...); return sharedBrowser; }
     catch (error) { throw error; } finally { browserLaunching = false; }]
    Calls interleave at their [await]s; browsers are numbered, [live] are
    the connected ones. A task resolves with [Some b] or with [null]. *)
Module RailwayBrowser.

Inductive rtask :=
  | REntry                          (* transient: about to run the prefix *)
  | RPolling                        (* awaiting the 100 ms timer *)
  | RLaunching                      (* awaiting puppeteer.launch *)
  | RReturned (b : option nat)      (* resolved with sharedBrowser *)
  | RThrew.                         (* rejected: the launch failed *)

Record rbstate := mk_rbstate {
  sharedBrowser : option nat;
  browserLaunching : bool;
  next_id : nat;
  live : gset nat;
  tasks : list rtask
}.

Definition rinit : rbstate := mk_rbstate None false 0 ∅ [].

Definition set_task (st : rbstate) (i : nat) (t : rtask) : rbstate :=
  mk_rbstate (sharedBrowser st) (browserLaunching st) (next_id st) (live st)
             (<[i := t]> (tasks st)).

(** The synchronous prefix of a call, run by task [i]. *)
Definition run_prefix (st : rbstate) (i : nat) : rbstate :=
  let connected := match sharedBrowser st with
                   | Some b => bool_decide (b ∈ live st)
                   | None => false
                   end in
  if connected then set_task st i (RReturned (sharedBrowser st))
  else if browserLaunching st then set_task st i RPolling
  else mk_rbstate (sharedBrowser st) true (next_id st) (live st)
                  (<[i := RLaunching]> (tasks st)).

Definition call (st : rbstate) : rbstate :=
  run_prefix (mk_rbstate (sharedBrowser st) (browserLaunching st) (next_id st)
                         (live st) (tasks st ++ [REntry]))
             (length (tasks st)).

(** The 100 ms timer of a polling task fires: the [while] test again. *)
Definition wake (st : rbstate) (i : nat) : rbstate :=
  if browserLaunching st then set_task st i RPolling
  else set_task st i (RReturned (sharedBrowser st)).

Definition launch_ok (st : rbstate) (i : nat) : rbstate :=
  mk_rbstate (Some (next_id st)) false (S (next_id st)) ({[next_id st]} ∪ live st)
             (<[i := RReturned (Some (next_id st))]> (tasks st)).

(** [puppeteer.launch] rejects: [sharedBrowser] is not assigned, the
    [finally] clears [browserLaunching], the call rejects. *)
Definition launch_fail (st : rbstate) (i : nat) : rbstate :=
  mk_rbstate (sharedBrowser st) false (next_id st) (live st)
             (<[i := RThrew]> (tasks st)).

Definition disconnect (st : rbstate) (b : nat) : rbstate :=
  mk_rbstate (sharedBrowser st) (browserLaunching st) (next_id st)
             (live st ∖ {[b]}) (tasks st).

Inductive rstep : rbstate -> rbstate -> Prop :=
  | rstep_call st : rstep st (call st)
  | rstep_wake st i : tasks st !! i = Some RPolling -> rstep st (wake st i)
  | rstep_launch_ok st i : tasks st !! i = Some RLaunching -> rstep st (launch_ok st i)
  | rstep_launch_fail st i : tasks st !! i = Some RLaunching -> rstep st (launch_fail st i)
  | rstep_disconnect st b : b ∈ live st -> rstep st (disconnect st b).

Inductive rreachable : rbstate -> Prop :=
  | rreach_init : rreachable rinit
  | rreach_step st st' : rreachable st -> rstep st st' -> rreachable st'.

Definition is_rlaunching (t : rtask) : bool :=
  match t with RLaunching => true | _ => false end.

Definition rlaunches_in_flight (st : rbstate) : nat :=
  length (List.filter is_rlaunching (tasks st)).

Definition rshared_set (st : rbstate) : gset nat :=
  match sharedBrowser st with Some b => {[b]} | None => ∅ end.

Definition rbinv (st : rbstate) : Prop :=
  rlaunches_in_flight st = (if browserLaunching st then 1 else 0)%nat /\
  live st ⊆ rshared_set st /\
  (browserLaunching st = true -> live st = ∅).

End RailwayBrowser.


(* ===================================================================== *)
(** * Properties *)
(* ===================================================================== *)

Module CacheFacts.
Import TTLCache.

Example cache_get_before_boundary :
  cache_get CACHE_DURATION {[ "k" := mk_entry 7%nat 100 ]} "k" 3099 = Some 7%nat.
Proof. reflexivity. Qed.

Example cache_get_at_boundary :
  cache_get CACHE_DURATION {[ "k" := mk_entry 7%nat 100 ]} "k" 3100 = None.
Proof. reflexivity. Qed.

Lemma sweep_cache_lookup {A} (m : gmap string (cache_entry A)) t k :
  sweep_cache t m !! k =
  match m !! k with
  | Some e => if bool_decide (t - timestamp e > CACHE_DURATION * 3) then None else Some e
  | None => None
  end.
Proof.
  unfold sweep_cache. rewrite map_lookup_filter.
  destruct (m !! k) as [e|]; simpl; [|done].
  case_bool_decide; simpl.
  - rewrite option_guard_False; [done|]. intros Hn. apply Hn. exact H.
  - rewrite option_guard_True; [done|]. exact H.
Qed.

(** A lookup (in either cache, whatever its duration [ttl]) returns the
    stored value exactly when the entry is stored and strictly younger than
    [ttl]; a read at [timestamp + ttl] finds nothing; and the periodic
    list-cache sweep, run at any time up to the read, never changes what
    the read returns. *)
Lemma cache_get_fresh_iff :
  forall (A : Type) (ttl : Z) (m : gmap string (cache_entry A)) (k : string) (now : Z) (v : A),
    (cache_get ttl m k now = Some v <->
       exists e, m !! k = Some e /\ now - timestamp e < ttl /\ data e = v)
    /\ (forall e, m !! k = Some e -> cache_get ttl m k (timestamp e + ttl) = None)
    /\ (forall t_sweep, t_sweep <= now ->
          cache_get CACHE_DURATION (sweep_cache t_sweep m) k now
          = cache_get CACHE_DURATION m k now).
Proof.
  intros A ttl m k now v. split; [|split].
  - unfold cache_get. split.
    + destruct (m !! k) as [e|] eqn:He; [|discriminate].
      destruct (now - timestamp e <? ttl) eqn:Hlt; [|discriminate].
      intros Hv. injection Hv as <-. exists e. apply Z.ltb_lt in Hlt. auto.
    + intros (e & He & Hlt & <-). rewrite He.
      apply Z.ltb_lt in Hlt. rewrite Hlt. reflexivity.
  - intros e He. unfold cache_get. rewrite He.
    replace (timestamp e + ttl - timestamp e) with ttl by lia.
    rewrite Z.ltb_irrefl. reflexivity.
  - intros t_sweep Ht. unfold cache_get. rewrite sweep_cache_lookup.
    destruct (m !! k) as [e|]; [|done].
    case_bool_decide; [|done].
    unfold CACHE_DURATION in *.
    destruct (now - timestamp e <? 3000) eqn:Hlt; [|done].
    apply Z.ltb_lt in Hlt. lia.
Qed.

End CacheFacts.

Module RateFacts.
Import RateLimit.

Example floor_example :
  fst (admit_all ∅ "1.2.3.4" [1700000000000; 1700000001000; 1700000002100])
  = [true; false; true].
Proof. reflexivity. Qed.

Lemma ensure_ip_present log ip init d :
  log !! ip = Some d -> ensure_ip log ip init = log.
Proof. unfold ensure_ip. intros ->. reflexivity. Qed.

Lemma get_ip_present log ip init d :
  log !! ip = Some d -> get_ip log ip init = d.
Proof. unfold get_ip. intros ->. reflexivity. Qed.

(** The admission test of [checkRubinOTRateLimit] on a known record. *)
Lemma check_known log ip now d :
  log !! ip = Some d ->
  checkRubinOTRateLimit log ip now =
  if (0 <? lastRequest d) && (now - lastRequest d <? MIN_RUBINOT_INTERVAL) then (false, log)
  else if MAX_RUBINOT_FETCHES_PER_MINUTE <=? Z.of_nat (length (recent now (requests d)))
  then (false, log)
  else (true, <[ip := mk_ip (recent now (requests d) ++ [now]) now]> log).
Proof.
  intros Hd. unfold checkRubinOTRateLimit.
  rewrite (ensure_ip_present _ _ _ _ Hd), (get_ip_present _ _ _ _ Hd). reflexivity.
Qed.

(** A first call for an identity without a record is admitted and leaves
    the record [{ requests: [now], lastRequest: now }]. *)
Lemma check_fresh log ip now :
  log !! ip = None ->
  checkRubinOTRateLimit log ip now = (true, <[ip := mk_ip [now] now]> log).
Proof.
  intros Hn. unfold checkRubinOTRateLimit, ensure_ip, get_ip. rewrite Hn.
  simpl. rewrite insert_insert_eq. reflexivity.
Qed.

(** C7. With the floor [MIN_RUBINOT_INTERVAL = 2000] ms and one identity
    with no record yet: a first call at [t0] is admitted, a call 1000 ms
    later is denied, a call 2100 ms after the first is admitted. And in
    general, while the identity's window is not full, a call is denied
    exactly when less than 2000 ms passed since its last admitted call. *)
Theorem rate_floor_2000 :
  (forall log ip t0, log !! ip = None -> 0 < t0 ->
     fst (admit_all log ip [t0; t0 + 1000; t0 + 2100]) = [true; false; true])
  /\ (forall log ip now d, log !! ip = Some d -> 0 < lastRequest d ->
        Z.of_nat (length (recent now (requests d))) < MAX_RUBINOT_FETCHES_PER_MINUTE ->
        (fst (checkRubinOTRateLimit log ip now) = false <->
         now - lastRequest d < MIN_RUBINOT_INTERVAL)).
Proof.
  split.
  - intros log ip t0 Hn Ht0. simpl.
    rewrite (check_fresh _ _ _ Hn).
    rewrite (check_known _ _ _ (mk_ip [t0] t0)) by apply lookup_insert_eq.
    simpl lastRequest. simpl requests.
    replace (t0 + 1000 - t0) with 1000 by lia.
    replace ((0 <? t0) && (1000 <? MIN_RUBINOT_INTERVAL)) with true
      by (symmetry; apply andb_true_iff; split; apply Z.ltb_lt; unfold MIN_RUBINOT_INTERVAL; lia).
    rewrite (check_known _ _ _ (mk_ip [t0] t0)) by apply lookup_insert_eq.
    simpl lastRequest. simpl requests.
    replace (t0 + 2100 - t0) with 2100 by lia.
    replace ((0 <? t0) && (2100 <? MIN_RUBINOT_INTERVAL)) with false
      by (symmetry; apply andb_false_iff; right; apply Z.ltb_ge;
          unfold MIN_RUBINOT_INTERVAL; lia).
    unfold recent. simpl.
    replace (t0 + 2100 - t0) with 2100 by lia. reflexivity.
  - intros log ip now d Hd Hlast Hwin.
    rewrite (check_known _ _ _ _ Hd).
    apply Z.ltb_lt in Hlast. rewrite Hlast. simpl.
    apply Z.ltb_lt in Hwin.
    destruct (now - lastRequest d <? MIN_RUBINOT_INTERVAL) eqn:Hf.
    + apply Z.ltb_lt in Hf. simpl. tauto.
    + apply Z.ltb_ge in Hf.
      replace (MAX_RUBINOT_FETCHES_PER_MINUTE <=? Z.of_nat (length (recent now (requests d))))
        with false by (symmetry; apply Z.leb_gt; apply Z.ltb_lt in Hwin; lia).
      simpl. split; [discriminate | lia].
Qed.

Lemma rate_floor_2000_witness :
  (∅ : gmap string ip_record) !! "1.2.3.4" = None /\ 0 < 1700000000000 /\
  fst (admit_all ∅ "1.2.3.4" [1700000000000; 1700000000000 + 1000; 1700000000000 + 2100])
  = [true; false; true].
Proof.
  split; [reflexivity|]. split; [lia|].
  apply (proj1 rate_floor_2000); [reflexivity | lia].
Defined.

(** C10. A denied call leaves the rate log exactly as it was, both in
    [checkRubinOTRateLimit] and in the 429 path of [rateLimitMiddleware];
    hence every later sequence of calls is decided as if the denied call
    had never happened. *)
Theorem denied_call_leaves_log_unchanged :
  forall log ip now,
    (fst (checkRubinOTRateLimit log ip now) = false ->
       snd (checkRubinOTRateLimit log ip now) = log
       /\ forall ts, admit_all (snd (checkRubinOTRateLimit log ip now)) ip ts
                     = admit_all log ip ts)
    /\ (fst (rateLimitMiddleware log ip now) = false ->
          snd (rateLimitMiddleware log ip now) = log).
Proof.
  intros log ip now. split.
  - intros Hden.
    assert (Hlog : snd (checkRubinOTRateLimit log ip now) = log).
    { destruct (log !! ip) as [d|] eqn:Hd.
      - revert Hden. rewrite (check_known _ _ _ _ Hd).
        destruct (_ && _); [reflexivity|].
        destruct (_ <=? _); [reflexivity | discriminate].
      - revert Hden. rewrite (check_fresh _ _ _ Hd). discriminate. }
    split; [exact Hlog|]. intros ts. rewrite Hlog. reflexivity.
  - unfold rateLimitMiddleware, ensure_ip, get_ip.
    destruct (log !! ip) as [d|] eqn:Hd.
    + destruct (_ && _); [reflexivity | discriminate].
    + simpl. discriminate.
Qed.

Lemma denied_call_leaves_log_unchanged_witness :
  let log := {[ "1.2.3.4" := mk_ip [1000] 1000 ]} in
  fst (checkRubinOTRateLimit log "1.2.3.4" 1500) = false /\
  snd (checkRubinOTRateLimit log "1.2.3.4" 1500) = log /\
  fst (rateLimitMiddleware log "1.2.3.4" 1200) = false /\
  snd (rateLimitMiddleware log "1.2.3.4" 1200) = log.
Proof.
  intros log.
  assert (H1 : fst (checkRubinOTRateLimit log "1.2.3.4" 1500) = false) by reflexivity.
  assert (H2 : fst (rateLimitMiddleware log "1.2.3.4" 1200) = false) by reflexivity.
  split; [exact H1|]. split; [exact (proj1 (proj1 (denied_call_leaves_log_unchanged log "1.2.3.4" 1500) H1))|].
  split; [exact H2|]. exact (proj2 (denied_call_leaves_log_unchanged log "1.2.3.4" 1200) H2).
Defined.


Lemma recent_all now (l : list Z) :
  Forall (fun p => now - p < RATE_LIMIT_WINDOW) l -> recent now l = l.
Proof.
  induction 1 as [|p l Hp _ IH]; [reflexivity|].
  unfold recent in *. simpl. apply Z.ltb_lt in Hp. rewrite Hp, IH. reflexivity.
Qed.

Lemma spaced_calls_admitted ip (ts : list Z) :
  forall prev last (log : gmap string ip_record),
    log !! ip = Some (mk_ip prev last) -> 0 < last ->
    gaps_ok last ts ->
    (length prev + length ts <= 30)%nat ->
    within_window (prev ++ ts) ->
    fst (admit_all log ip ts) = repeat true (length ts).
Proof.
  induction ts as [|t ts IH]; intros prev last log Hd Hlast Hgap Hlen Hwin; [reflexivity|].
  destruct Hgap as [Ht Hgap]. simpl.
  rewrite (check_known _ _ _ _ Hd). simpl lastRequest. simpl requests.
  assert (Hrec : recent t prev = prev).
  { apply recent_all. unfold within_window in Hwin.
    rewrite Forall_forall in Hwin.
    assert (Ht_in : t ∈ prev ++ t :: ts) by (apply elem_of_app; right; left).
    specialize (Hwin t Ht_in). rewrite Forall_app in Hwin. apply Hwin. }
  rewrite Hrec.
  replace ((0 <? last) && (t - last <? MIN_RUBINOT_INTERVAL)) with false
    by (symmetry; apply andb_false_iff; right; apply Z.ltb_ge; lia).
  replace (MAX_RUBINOT_FETCHES_PER_MINUTE <=? Z.of_nat (length prev)) with false
    by (symmetry; apply Z.leb_gt; unfold MAX_RUBINOT_FETCHES_PER_MINUTE; simpl in Hlen; lia).
  destruct (admit_all _ ip ts) as [bs log''] eqn:Hrun.
  simpl. f_equal.
  assert (Hbs : fst (admit_all (<[ip:=mk_ip (prev ++ [t]) t]> log) ip ts) = repeat true (length ts)).
  { apply (IH (prev ++ [t]) t).
    - apply lookup_insert_eq.
    - unfold MIN_RUBINOT_INTERVAL in Ht. lia.
    - exact Hgap.
    - rewrite length_app. simpl in Hlen |- *. lia.
    - rewrite <- app_assoc. exact Hwin. }
  rewrite Hrun in Hbs. exact Hbs.
Qed.


(** C8, as stated, fails: thirty calls fill the window of "1.2.3.4" (the
    oldest at [T0], the newest at [T0 + 59500]); a call at [T0 + 59600]
    is denied; at [T0 + 60000] the oldest timestamp has left the trailing
    window (29 remain, the oldest now [T0 + 2000]), yet the call is denied,
    because it comes 500 ms after the last admitted call. *)
Lemma window_ceiling_counterexample :
  fst (admit_all ∅ "1.2.3.4" window_filled) = repeat true 30
  /\ (exists d, log_after_fill !! "1.2.3.4" = Some d
        /\ length (recent (T0 + 59600) (requests d)) = 30%nat
        /\ head (requests d) = Some T0
        /\ length (recent (T0 + 60000) (requests d)) = 29%nat
        /\ head (recent (T0 + 60000) (requests d)) = Some (T0 + 2000))
  /\ fst (checkRubinOTRateLimit log_after_fill "1.2.3.4" (T0 + 59600)) = false
  /\ fst (checkRubinOTRateLimit log_after_fill "1.2.3.4" (T0 + 60000)) = false.
Proof.
  split; [vm_compute; reflexivity|].
  split; [|split; vm_compute; reflexivity].
  destruct (log_after_fill !! "1.2.3.4") as [d|] eqn:Hd.
  - exists d. split; [reflexivity|].
    vm_compute in Hd. injection Hd as <-.
    repeat split; vm_compute; reflexivity.
  - vm_compute in Hd. discriminate.
Qed.

(** C8 (amended). With the ceiling [MAX_RUBINOT_FETCHES_PER_MINUTE = 30]
    per [RATE_LIMIT_WINDOW = 60000] ms, for one identity: a call while
    the trailing window holds 30 timestamps is denied and changes nothing;
    a call while it holds fewer than 30 and at least 2000 ms after the last
    admitted call (or with none) is admitted and appended to the pruned
    window; a call less than 2000 ms after the last admitted call is denied
    and changes nothing, whatever the window holds (also after its oldest
    timestamps have left it). So calls 2000 ms apart are all admitted when,
    together with the timestamps the window already holds (none for an
    identity with no record), they are at most 30 and all within one
    window. *)
Theorem window_ceiling_amended :
  (forall log ip now d, log !! ip = Some d ->
     (30 <= length (recent now (requests d)))%nat ->
     checkRubinOTRateLimit log ip now = (false, log))
  /\ (forall log ip now d, log !! ip = Some d ->
        (lastRequest d <= 0 \/ MIN_RUBINOT_INTERVAL <= now - lastRequest d) ->
        (length (recent now (requests d)) < 30)%nat ->
        checkRubinOTRateLimit log ip now
        = (true, <[ip := mk_ip (recent now (requests d) ++ [now]) now]> log))
  /\ (forall log ip now d, log !! ip = Some d -> 0 < lastRequest d ->
        now - lastRequest d < MIN_RUBINOT_INTERVAL ->
        checkRubinOTRateLimit log ip now = (false, log))
  /\ (forall log ip t1 ts, log !! ip = None -> 0 < t1 -> gaps_ok t1 ts ->
        (length ts < 30)%nat -> within_window (t1 :: ts) ->
        fst (admit_all log ip (t1 :: ts)) = repeat true (S (length ts)))
  /\ (forall log ip d t1 ts, log !! ip = Some d -> 0 < t1 ->
        (lastRequest d <= 0 \/ MIN_RUBINOT_INTERVAL <= t1 - lastRequest d) ->
        gaps_ok t1 ts ->
        (length (recent t1 (requests d)) + length ts < 30)%nat ->
        within_window (recent t1 (requests d) ++ t1 :: ts) ->
        fst (admit_all log ip (t1 :: ts)) = repeat true (S (length ts))).
Proof.
  assert (Hadm : forall log ip now d, log !! ip = Some d ->
        (lastRequest d <= 0 \/ MIN_RUBINOT_INTERVAL <= now - lastRequest d) ->
        (length (recent now (requests d)) < 30)%nat ->
        checkRubinOTRateLimit log ip now
        = (true, <[ip := mk_ip (recent now (requests d) ++ [now]) now]> log)).
  { intros log ip now d Hd Hfloor Hroom. rewrite (check_known _ _ _ _ Hd).
    replace ((0 <? lastRequest d) && (now - lastRequest d <? MIN_RUBINOT_INTERVAL)) with false.
    + replace (MAX_RUBINOT_FETCHES_PER_MINUTE <=? Z.of_nat (length (recent now (requests d))))
        with false by (symmetry; apply Z.leb_gt; unfold MAX_RUBINOT_FETCHES_PER_MINUTE; lia).
      reflexivity.
    + symmetry. apply andb_false_iff. destruct Hfloor as [H|H].
      * left. apply Z.ltb_ge. exact H.
      * right. apply Z.ltb_ge. exact H. }
  split; [|split; [exact Hadm|split; [|split]]].
  - intros log ip now d Hd Hfull. rewrite (check_known _ _ _ _ Hd).
    destruct (_ && _); [reflexivity|].
    replace (MAX_RUBINOT_FETCHES_PER_MINUTE <=? Z.of_nat (length (recent now (requests d))))
      with true by (symmetry; apply Z.leb_le; unfold MAX_RUBINOT_FETCHES_PER_MINUTE; lia).
    reflexivity.
  - intros log ip now d Hd Hpos Hnear. rewrite (check_known _ _ _ _ Hd).
    replace ((0 <? lastRequest d) && (now - lastRequest d <? MIN_RUBINOT_INTERVAL)) with true
      by (symmetry; apply andb_true_iff; split; apply Z.ltb_lt; assumption).
    reflexivity.
  - intros log ip t1 ts Hn Ht1 Hgap Hlen Hwin. simpl.
    rewrite (check_fresh _ _ _ Hn).
    destruct (admit_all _ ip ts) as [bs log''] eqn:Hrun. simpl. f_equal.
    assert (Hbs : fst (admit_all (<[ip:=mk_ip [t1] t1]> log) ip ts) = repeat true (length ts)).
    { apply (spaced_calls_admitted ip ts [t1] t1).
      - apply lookup_insert_eq.
      - exact Ht1.
      - exact Hgap.
      - simpl. lia.
      - exact Hwin. }
    rewrite Hrun in Hbs. exact Hbs.
  - intros log ip d t1 ts Hd Ht1 Hfloor Hgap Hlen Hwin. simpl.
    rewrite (Hadm _ _ _ _ Hd Hfloor) by lia.
    destruct (admit_all _ ip ts) as [bs log''] eqn:Hrun. simpl. f_equal.
    assert (Hbs : fst (admit_all (<[ip:=mk_ip (recent t1 (requests d) ++ [t1]) t1]> log) ip ts)
                  = repeat true (length ts)).
    { apply (spaced_calls_admitted ip ts (recent t1 (requests d) ++ [t1]) t1).
      - apply lookup_insert_eq.
      - exact Ht1.
      - exact Hgap.
      - rewrite length_app. simpl. lia.
      - rewrite <- app_assoc. exact Hwin. }
    rewrite Hrun in Hbs. exact Hbs.
Qed.

Lemma window_ceiling_amended_witness :
  checkRubinOTRateLimit log_after_fill "1.2.3.4" (T0 + 59600) = (false, log_after_fill)
  /\ fst (checkRubinOTRateLimit {[ "1.2.3.4" := mk_ip [T0] T0 ]} "1.2.3.4" (T0 + 2000))
     = true
  /\ checkRubinOTRateLimit log_after_fill "1.2.3.4" (T0 + 60000) = (false, log_after_fill)
  /\ fst (admit_all ∅ "1.2.3.4" [T0; T0 + 2000; T0 + 4000]) = [true; true; true]
  /\ fst (admit_all {[ "1.2.3.4" := mk_ip [T0] T0 ]} "1.2.3.4" [T0 + 2000; T0 + 4000])
     = [true; true].
Proof.
  destruct window_ceiling_amended as (H1 & H2 & H3 & H4 & H5).
  split; [|split; [|split; [|split]]].
  - apply (H1 _ _ _
             (mk_ip (map (fun k => T0 + MIN_RUBINOT_INTERVAL * Z.of_nat k) (seq 0 29)
                     ++ [T0 + 59500]) (T0 + 59500))).
    + vm_compute. reflexivity.
    + apply Nat.leb_le. vm_compute. reflexivity.
  - rewrite (H2 _ _ _ (mk_ip [T0] T0)).
    + reflexivity.
    + vm_compute. reflexivity.
    + right. vm_compute. discriminate.
    + apply Nat.ltb_lt. vm_compute. reflexivity.
  - apply (H3 _ _ _
             (mk_ip (map (fun k => T0 + MIN_RUBINOT_INTERVAL * Z.of_nat k) (seq 0 29)
                     ++ [T0 + 59500]) (T0 + 59500))).
    + vm_compute. reflexivity.
    + unfold T0. simpl. lia.
    + unfold T0, MIN_RUBINOT_INTERVAL. simpl. lia.
  - apply H4.
    + reflexivity.
    + vm_compute. reflexivity.
    + vm_compute. repeat split; discriminate.
    + simpl. lia.
    + unfold within_window.
      repeat (apply List.Forall_cons || apply List.Forall_nil);
        unfold RATE_LIMIT_WINDOW, T0; lia.
  - apply (H5 _ _ (mk_ip [T0] T0)).
    + reflexivity.
    + vm_compute. reflexivity.
    + right. simpl. unfold T0, MIN_RUBINOT_INTERVAL. lia.
    + vm_compute. repeat split; discriminate.
    + apply Nat.ltb_lt. vm_compute. reflexivity.
    + assert (Hr : recent (T0 + 2000) (requests (mk_ip [T0] T0)) = [T0])
        by (vm_compute; reflexivity).
      rewrite Hr. unfold within_window.
      repeat (apply List.Forall_cons || apply List.Forall_nil);
        unfold RATE_LIMIT_WINDOW, T0; lia.
Defined.

End RateFacts.

Module HandlerFacts.
Import TTLCache RateLimit ServerJs.

Example budgets_of_attempts :
  all_budgets = [(8000, 4000); (12000, 6000); (20000, 8000); (20000, 8000)].
Proof. reflexivity. Qed.

(** C2, as stated, fails: failing three attempts and succeeding on the
    fourth, the third and the fourth attempt get the same budget. *)
Lemma retry_budget_counterexample :
  fst (run_retry (@None (list enriched)) (fails_then_succeeds 4)) = LoopBreak 4
  /\ snd (run_retry (@None (list enriched)) (fails_then_succeeds 4)) !! 2%nat
     = Some (20000, 8000)
  /\ snd (run_retry (@None (list enriched)) (fails_then_succeeds 4)) !! 3%nat
     = Some (20000, 8000).
Proof. repeat split; reflexivity. Qed.

(** C2 (amended). The attempt ceiling is 4; the budgets are non-decreasing,
    strictly increasing over the first three attempts, the fourth reusing
    the third's. A mock upstream failing attempts [1 .. N-1] and
    succeeding on attempt [N <= 4] makes the loop [break] after exactly
    [N] attempts, with the first [N] budgets, whatever the cache holds. *)
Theorem retry_escalation_amended :
  forall (A : Type) (cached : option A) (N : nat),
    (1 <= N <= 4)%nat ->
    run_retry cached (fails_then_succeeds N) = (LoopBreak N, firstn N all_budgets)
    /\ all_budgets = [(8000, 4000); (12000, 6000); (20000, 8000); (20000, 8000)]
    /\ fst (budget 0) < fst (budget 1) < fst (budget 2)
    /\ snd (budget 0) < snd (budget 1) < snd (budget 2)
    /\ budget 3 = budget 2.
Proof.
  intros A cached N HN.
  split; [|repeat split; reflexivity || (simpl; lia)].
  destruct N as [|[|[|[|[|N]]]]]; try lia; reflexivity.
Qed.

Lemma retry_escalation_amended_witness :
  (1 <= 3 <= 4)%nat /\
  run_retry (@None (list enriched)) (fails_then_succeeds 3)
  = (LoopBreak 3, firstn 3 all_budgets).
Proof.
  split; [lia|].
  apply (retry_escalation_amended (list enriched) None 3). lia.
Defined.

(** When every attempt fails the loop ends in the stale fallback when a
    cached value exists and in a throw otherwise. *)
Lemma retry_all_fail {A} (cached : option A) up :
  (forall rc, attempt_fails (up rc) = true) ->
  fst (run_retry cached up) = match cached with Some v => LoopStale v | None => LoopThrow end.
Proof.
  intros Hf. unfold run_retry. simpl.
  pose proof (Hf 0%nat) as H0. pose proof (Hf 1%nat) as H1.
  pose proof (Hf 2%nat) as H2. pose proof (Hf 3%nat) as H3.
  destruct (up 0%nat); try discriminate;
  destruct (up 1%nat); try discriminate;
  destruct (up 2%nat); try discriminate;
  destruct (up 3%nat); try discriminate; reflexivity.
Qed.

End HandlerFacts.

Module StaleFacts.
Import TTLCache RateLimit ServerJs HandlerFacts.

(** C4, as stated, fails: with an entry stored at 1000 and read at
    10000 (expired) and every attempt failing, the answer is exactly the
    answer a fresh hit on the same data gives (read at 2000): status 200,
    no header, the data; nothing marks it as stale. *)
Lemma stale_fallback_counterexample :
  fst (handle_deaths (state_with_list 1000) req20 10000 10000 env_all_fail)
  = Some (mk_response 200 [] (Deaths sample_list))
  /\ fst (handle_deaths (state_with_list 1000) req20 2000 2000 env_all_fail)
     = Some (mk_response 200 [] (Deaths sample_list)).
Proof. split; vm_compute; reflexivity. Qed.

(** C4 (amended). In server.js, once the middleware lets the request
    through, its list-cache entry is expired (or missing), the browser is
    obtained and all four attempts fail: with an entry, the answer is the
    cached data (VIP-filtered when asked) as an ordinary 200 response with no
    header, the same shape as a fresh hit; with no entry, the answer is a 500.
    In the Railway server, when the queued fetch fails and the entry is
    expired, the answer is the cached data (VIP-filtered when asked) with the
    header [X-Stale-Cache: true]; with no entry, it is a 500. *)
Theorem stale_fallback_amended :
  (forall st r t_mw t env,
    fst (rateLimitMiddleware (requestLog st) (ip r) t_mw) = true ->
    browser_ok env = true ->
    (forall rc, attempt_fails (upstream env rc) = true) ->
    (forall e, cache st !! cacheKey r = Some e ->
       CACHE_DURATION <= t - timestamp e ->
       fst (handle_deaths st r t_mw t env)
       = Some (mk_response 200 [] (Deaths (vip_filter (vipFilter r) (data e)))))
    /\ (cache st !! cacheKey r = None ->
        fst (handle_deaths st r t_mw t env) = Some error_500))
  /\ (forall rst r now renv,
    Railway.queued renv = None ->
    (forall e, Railway.rcache rst !! cacheKey r = Some e ->
       CACHE_DURATION <= now - timestamp e ->
       fst (Railway.rhandle rst r now renv)
       = Railway.mk_rresp 200 [Railway.XStaleCache "true"]
           (Railway.RDeaths (Railway.rvip_filter (vipFilter r) (data e))))
    /\ (Railway.rcache rst !! cacheKey r = None ->
        fst (Railway.rhandle rst r now renv) = Railway.mk_rresp 500 [] Railway.RError)).
Proof.
  split.
  - intros st r t_mw t env Hmw Hbr Hfail.
    unfold handle_deaths.
    destruct (rateLimitMiddleware (requestLog st) (ip r) t_mw) as [ok log1] eqn:Hm.
    simpl in Hmw. subst ok. simpl.
    split.
    + intros e He Hexp. unfold cache_get. simpl. rewrite He.
      replace (t - timestamp e <? CACHE_DURATION) with false
        by (symmetry; apply Z.ltb_ge; lia).
      destruct (String.eqb (ip r) ""); rewrite Hbr; simpl;
        rewrite (retry_all_fail _ _ Hfail); reflexivity.
    + intros Hn. unfold cache_get. simpl. rewrite Hn.
      destruct (String.eqb (ip r) ""); rewrite Hbr; simpl;
        rewrite (retry_all_fail _ _ Hfail); reflexivity.
  - intros rst r now renv Hq. unfold Railway.rhandle, Railway.rfetch. rewrite Hq.
    split.
    + intros e He Hexp. rewrite He.
      replace (now - timestamp e <? CACHE_DURATION) with false
        by (symmetry; apply Z.ltb_ge; lia).
      reflexivity.
    + intros Hn. rewrite Hn. reflexivity.
Qed.

Lemma stale_fallback_amended_witness :
  fst (handle_deaths (state_with_list 1000) req20 10000 10000 env_all_fail)
  = Some (mk_response 200 [] (Deaths (vip_filter (vipFilter req20) sample_list))) /\
  fst (Railway.rhandle Railway.rstate_with_list req20 10000 Railway.renv_fail)
  = Railway.mk_rresp 200 [Railway.XStaleCache "true"]
      (Railway.RDeaths (Railway.rvip_filter (vipFilter req20) [])).
Proof.
  destruct stale_fallback_amended as [Hs Hr].
  split.
  - apply (proj1 (Hs (state_with_list 1000) req20 10000 10000
                     env_all_fail eq_refl eq_refl (fun _ => eq_refl))
                 (mk_entry sample_list 1000)).
    + reflexivity.
    + unfold CACHE_DURATION. simpl. lia.
  - apply (proj1 (Hr Railway.rstate_with_list req20 10000 Railway.renv_fail eq_refl) (mk_entry [] 1000)).
    + vm_compute. reflexivity.
    + unfold CACHE_DURATION. simpl. lia.
Defined.

End StaleFacts.

Module CacheHitFacts.
Import TTLCache RateLimit ServerJs HandlerFacts.

(** C1, as stated, fails: the list cache for [req20] is fresh (stored at
    1000, TTL 3000 ms). A first poll at 1500 is answered from the cache, but
    the middleware has written a rate record for "1.2.3.4"
    ([lastRequest = 1500]); a second poll at 1700, still within the TTL, is
    refused with 429 by that admission check before the cache is read. *)
Lemma cache_hit_counterexample :
  let st0 := state_with_list 1000 in
  let '(resp1, st1) := handle_deaths st0 req20 1500 1500 env_all_fail in
  resp1 = Some (json sample_list)
  /\ requestLog st0 = ∅
  /\ requestLog st1 = {[ "1.2.3.4" := mk_ip [] 1500 ]}
  /\ cache_get CACHE_DURATION (cache st1) (cacheKey req20) 1700 = Some sample_list
  /\ fst (handle_deaths st1 req20 1700 1700 env_all_fail) = Some too_many_429.
Proof. vm_compute. repeat split. Qed.

(** C1 (amended). On a fresh list-cache hit the handler never calls
    [logRateLimitRequest] nor anything upstream (the answer does not depend
    on the upstream at all), and no identity's window of fetch timestamps
    changes. The hit does pass [rateLimitMiddleware] first: when the
    identity's previous request came less than 500 ms earlier the answer is
    429, otherwise the cached data with the identity's [lastRequest] set to
    the request time. *)
Theorem cache_hit_amended :
  forall st r t_mw t env v,
    cache_get CACHE_DURATION (cache st) (cacheKey r) t = Some v ->
    let '(ok, log1) := rateLimitMiddleware (requestLog st) (ip r) t_mw in
    handle_deaths st r t_mw t env
    = (Some (if ok then json (vip_filter (vipFilter r) v) else too_many_429),
       with_log st log1)
    /\ (forall ip' d', log1 !! ip' = Some d' ->
          requests d' = requests (get_ip (requestLog st) ip' 0))
    /\ (ok = true -> log1 !! ip r = Some (mk_ip (requests (get_ip (requestLog st) (ip r) 0)) t_mw))
    /\ (ok = false <->
          0 < lastRequest (get_ip (requestLog st) (ip r) 0)
          /\ t_mw - lastRequest (get_ip (requestLog st) (ip r) 0) < 500).
Proof.
  intros st r t_mw t env v Hhit.
  destruct (rateLimitMiddleware (requestLog st) (ip r) t_mw) as [ok log1] eqn:Hm.
  unfold rateLimitMiddleware in Hm.
  assert (Hens : forall ip' d', ensure_ip (requestLog st) (ip r) 0 !! ip' = Some d' ->
                   requests d' = requests (get_ip (requestLog st) ip' 0)).
  { intros ip' d'. unfold ensure_ip, get_ip.
    destruct (requestLog st !! ip r) as [d0|] eqn:H0.
    - intros ->. reflexivity.
    - rewrite lookup_insert. case_decide as Heq.
      + subst ip'. rewrite H0. intros [= <-]. reflexivity.
      + intros ->. reflexivity. }
  destruct ((0 <? lastRequest (get_ip (requestLog st) (ip r) 0))
            && (t_mw - lastRequest (get_ip (requestLog st) (ip r) 0) <? 500)) eqn:Hg;
    injection Hm as <- <-.
  - split; [|split; [|split]].
    + unfold handle_deaths. unfold rateLimitMiddleware. rewrite Hg. reflexivity.
    + exact Hens.
    + discriminate.
    + apply andb_true_iff in Hg as [H1 H2]. apply Z.ltb_lt in H1, H2.
      split; [intros _; split; [exact H1 | exact H2] | intros _; reflexivity].
  - split; [|split; [|split]].
    + unfold handle_deaths. unfold rateLimitMiddleware. rewrite Hg. simpl.
      rewrite Hhit. reflexivity.
    + intros ip' d'. rewrite lookup_insert. case_decide as Heq.
      * subst ip'. intros [= <-]. reflexivity.
      * apply Hens.
    + intros _. apply lookup_insert_eq.
    + split; [discriminate|]. intros [H1 H2].
      apply Z.ltb_lt in H1, H2. rewrite H1, H2 in Hg. discriminate.
Qed.

Lemma cache_hit_amended_witness :
  handle_deaths (state_with_list 1000) req20 1500 1500 env_all_fail
  = (Some (json (vip_filter (vipFilter req20) sample_list)),
     with_log (state_with_list 1000)
              (snd (rateLimitMiddleware (requestLog (state_with_list 1000)) (ip req20) 1500))).
Proof.
  pose proof (cache_hit_amended (state_with_list 1000) req20 1500 1500 env_all_fail
                                sample_list) as H.
  assert (Hhit : cache_get CACHE_DURATION (cache (state_with_list 1000)) (cacheKey req20) 1500
                 = Some sample_list) by reflexivity.
  specialize (H Hhit). simpl in H. exact (proj1 H).
Defined.

End CacheHitFacts.

Module OrderFacts.
Import TTLCache RateLimit ServerJs.

Section PromiseAll.
Context {A : Type} (results : list (settled A)).

Lemma fill_slots_length order slots :
  length (fill_slots results order slots) = length slots.
Proof.
  revert slots. induction order as [|i order IH]; intros slots; [reflexivity|].
  simpl. rewrite IH. apply length_insert.
Qed.

Lemma fill_slots_notin order slots j :
  j ∉ order -> fill_slots results order slots !! j = slots !! j.
Proof.
  revert slots. induction order as [|i order IH]; intros slots Hj; [reflexivity|].
  simpl. rewrite IH by set_solver.
  apply list_lookup_insert_ne. set_solver.
Qed.

Lemma fill_slots_in order slots j :
  (j < length slots)%nat -> j ∈ order ->
  fill_slots results order slots !! j = Some (results !! j).
Proof.
  revert slots. induction order as [|i order IH]; intros slots Hlt Hj.
  - set_solver.
  - simpl. destruct (decide (j ∈ order)) as [Hin|Hnin].
    + apply IH; [rewrite length_insert; exact Hlt | exact Hin].
    + assert (j = i) as -> by set_solver.
      rewrite fill_slots_notin by exact Hnin.
      apply list_lookup_insert_eq. exact Hlt.
Qed.

(** Whatever the settlement order, once every promise has settled the
    slots hold the settlements in index order. *)
Lemma promise_all_perm order :
  Permutation order (seq 0 (length results)) ->
  promise_all results order = collect (map Some results).
Proof.
  intros Hp. unfold promise_all. f_equal.
  apply list_eq. intros j.
  destruct (decide (j < length results)%nat) as [Hlt|Hge].
  - rewrite fill_slots_in.
    + rewrite list_lookup_fmap. destruct (results !! j) eqn:Hr; [reflexivity|].
      apply lookup_ge_None in Hr. lia.
    + rewrite length_replicate. exact Hlt.
    + apply list_elem_of_In. apply (Permutation_in _ (Permutation_sym Hp)).
      apply in_seq. lia.
  - rewrite lookup_ge_None_2.
    + rewrite lookup_ge_None_2; [reflexivity|]. rewrite length_map. lia.
    + rewrite fill_slots_length, length_replicate. lia.
Qed.

End PromiseAll.


(** The answer of [enrich_phase] does not depend on the order in which the
    character promises settle. *)
Lemma enrich_phase_completion_indep st r now env order :
  Permutation order (seq 0 (length (deathsToFetch_of (characterCache st) now (parsed env)))) ->
  fst (enrich_phase st r now (with_completion env order))
  = fst (enrich_phase st r now
           (with_completion env (seq 0 (length (deathsToFetch_of (characterCache st) now (parsed env)))))).
Proof.
  unfold enrich_phase, deathsToFetch_of. cbv zeta. cbn [parsed details completion with_completion].
  destruct (parsed env) as [|d0 ds]; [reflexivity|].
  destruct (firstn 3 (rights (map (cache_status (characterCache st) now) (d0 :: ds))))
    as [|x xs] eqn:Hf; intros Hp; [reflexivity|].
  rewrite (promise_all_perm _ order) by (rewrite length_imap; exact Hp).
  rewrite (promise_all_perm _ (seq 0 _)) by (rewrite length_imap; reflexivity).
  destruct (collect _) as [[newly|]|]; reflexivity.
Qed.

(** Hence neither does the answer of the whole request. *)
Lemma handle_deaths_completion_indep st r t_mw t env order :
  Permutation order (seq 0 (length (deathsToFetch_of (characterCache st) t (parsed env)))) ->
  fst (handle_deaths st r t_mw t (with_completion env order))
  = fst (handle_deaths st r t_mw t
           (with_completion env (seq 0 (length (deathsToFetch_of (characterCache st) t (parsed env)))))).
Proof.
  intros Hp. unfold handle_deaths.
  destruct (rateLimitMiddleware (requestLog st) (ip r) t_mw) as [ok log1].
  destruct ok; [|reflexivity]. simpl.
  destruct (cache_get CACHE_DURATION (cache st) (cacheKey r) t); [reflexivity|].
  cbn [browser_ok upstream with_completion].
  destruct (browser_ok env); [|destruct (String.eqb (ip r) ""); reflexivity].
  destruct (fst (run_retry _ (upstream env))); try (destruct (String.eqb (ip r) ""); reflexivity).
  destruct (String.eqb (ip r) ""); cbn [negb];
    match goal with
    | |- fst (enrich_phase ?s _ _ _) = _ => exact (enrich_phase_completion_indep s _ _ _ _ Hp)
    end.
Qed.

(** C5. The merge sorts by [deaths.findIndex(d => d.player === a.player)],
    the index of the first death of the same player. When a player died
    twice among the latest deaths, both records get the index of the first
    one: for the rows [Bob (12:05); Carol (12:04); Bob (12:01)], whatever
    order the detail fetches complete in, the answer is
    [Bob (12:05); Bob (12:01); Carol (12:04)], not the source order. *)
Theorem merge_by_player_reorders_duplicates :
  forall order, Permutation order [0%nat; 1%nat; 2%nat] ->
  fst (handle_deaths empty_state req20 1500 1500
         (env_rows [bob_1; carol; bob_2] (fun _ => detail_ok) order))
  = Some (json [mk_enriched bob_1 knight_thais false true;
                mk_enriched bob_2 knight_thais false true;
                mk_enriched carol knight_thais false true]).
Proof.
  intros order Hp.
  change (env_rows [bob_1; carol; bob_2] (fun _ => detail_ok) order)
    with (with_completion (env_rows [bob_1; carol; bob_2] (fun _ => detail_ok) []) order).
  rewrite handle_deaths_completion_indep.
  - vm_compute. reflexivity.
  - exact Hp.
Qed.

Lemma merge_by_player_reorders_duplicates_witness :
  fst (handle_deaths empty_state req20 1500 1500
         (env_rows [bob_1; carol; bob_2] (fun _ => detail_ok) [2%nat; 0%nat; 1%nat]))
  = Some (json [mk_enriched bob_1 knight_thais false true;
                mk_enriched bob_2 knight_thais false true;
                mk_enriched carol knight_thais false true]).
Proof.
  apply merge_by_player_reorders_duplicates.
  apply (Permutation_trans (l' := [0%nat; 2%nat; 1%nat])).
  - apply perm_swap.
  - apply perm_skip, perm_swap.
Defined.

(** C6. [characterPromises] calls [browser.newPage()] before its [try]:
    when opening the character page of the only uncached death fails,
    [Promise.all] rejects and the whole request answers 500 (even when an
    older copy of the list is cached), while a failure inside the [try]
    (here [goto] throwing) degrades only that record to the sentinels. *)
Theorem newPage_failure_aborts_response :
  fst (handle_deaths empty_state req20 1500 1500
         (env_rows [carol] (fun _ => mk_detail_env false true GotoThrows true) [0%nat]))
  = Some error_500
  /\ fst (handle_deaths (state_with_list 1000) req20 10000 10000
            (env_rows [carol] (fun _ => mk_detail_env false true GotoThrows true) [0%nat]))
     = Some error_500
  /\ fst (handle_deaths empty_state req20 1500 1500
            (env_rows [carol] (fun _ => mk_detail_env true true GotoThrows true) [0%nat]))
     = Some (json [mk_enriched carol sentinel false true]).
Proof. repeat split; vm_compute; reflexivity. Qed.

End OrderFacts.

Module BrowserFacts.
Import Browser.

Lemma count_insert (l : list task) i t t' :
  l !! i = Some t ->
  (length (List.filter is_launching (<[i:=t']> l)) + (if is_launching t then 1 else 0)
   = length (List.filter is_launching l) + (if is_launching t' then 1 else 0))%nat.
Proof.
  revert i; induction l as [|x l IH]; intros [|i] H; simpl in *; try discriminate.
  - injection H as ->. destruct (is_launching t), (is_launching t'); simpl; lia.
  - specialize (IH i H). destruct (is_launching x); simpl; lia.
Qed.

Lemma count_app_entry (l : list task) :
  length (List.filter is_launching (l ++ [Entry])) = length (List.filter is_launching l).
Proof. rewrite List.filter_app. simpl. rewrite app_nil_r. reflexivity. Qed.

Lemma binv_init : binv init.
Proof. unfold binv, init, shared_set, launches_in_flight; simpl. split; [reflexivity|]. split; [set_solver|discriminate]. Qed.

Lemma binv_run_prefix st i t :
  binv st -> tasks st !! i = Some t -> is_launching t = false -> binv (run_prefix st i).
Proof.
  intros (Hc & Hl & Hn) Hi Ht.
  assert (Hset : forall t', length (List.filter is_launching (<[i:=t']> (tasks st)))
                            = (launches_in_flight st + if is_launching t' then 1 else 0)%nat).
  { intros t'. pose proof (count_insert _ _ _ t' Hi) as H. unfold launches_in_flight.
    rewrite Ht in H. lia. }
  unfold binv, run_prefix, launch_or_wait, set_task, launches_in_flight, shared_set in *.
  destruct (sharedBrowser st) as [b|] eqn:Hs.
  - case_bool_decide as Hb.
    + simpl. rewrite Hset. simpl. split; [lia|]. split; assumption.
    + destruct (browserLaunching st) eqn:HL; simpl; rewrite Hset; simpl.
      * split; [lia|]. split; assumption.
      * split; [lia|]. split; [set_solver|]. intros _. set_solver.
  - destruct (browserLaunching st) eqn:HL; simpl; rewrite Hset; simpl.
    + split; [lia|]. split; assumption.
    + split; [lia|]. split; [set_solver|]. intros _. set_solver.
Qed.

Lemma binv_launch_ok st i :
  binv st -> tasks st !! i = Some Launching -> binv (launch_ok st i).
Proof.
  intros (Hc & Hl & Hn) Hi.
  pose proof (count_insert _ _ _ (Returned (next_id st)) Hi) as H. simpl in H.
  unfold binv, launch_ok, launches_in_flight, shared_set in *; simpl.
  destruct (browserLaunching st) eqn:HL; [|lia].
  specialize (Hn eq_refl).
  split; [lia|]. split; [set_solver|discriminate].
Qed.

Lemma binv_launch_fail st i :
  binv st -> tasks st !! i = Some Launching -> binv (launch_fail st i).
Proof.
  intros (Hc & Hl & Hn) Hi.
  pose proof (count_insert _ _ _ Threw Hi) as H. simpl in H.
  unfold binv, launch_fail, launches_in_flight, shared_set in *; simpl.
  destruct (browserLaunching st) eqn:HL; [|lia].
  split; [lia|]. split; [exact Hl|discriminate].
Qed.

Lemma binv_disconnect st b : binv st -> binv (disconnect st b).
Proof.
  intros (Hc & Hl & Hn).
  unfold binv, disconnect, launches_in_flight, shared_set in *; simpl.
  split; [exact Hc|]. split; [set_solver|]. intros HL. specialize (Hn HL). set_solver.
Qed.

Lemma binv_call st : binv st -> binv (call st).
Proof.
  intros Hinv. unfold call.
  apply (binv_run_prefix _ _ Entry); [| |reflexivity].
  - destruct Hinv as (Hc & Hl & Hn).
    unfold binv, launches_in_flight, shared_set in *; simpl.
    rewrite count_app_entry. auto.
  - simpl. apply list_lookup_middle. reflexivity.
Qed.

Lemma binv_reachable st : reachable st -> binv st.
Proof.
  induction 1 as [|st st' _ IH Hs]; [exact binv_init|].
  destruct Hs as [st|st i Hi|st i Hi|st i Hi|st b Hb].
  - apply binv_call, IH.
  - apply (binv_run_prefix _ _ Sleeping); auto.
  - apply binv_launch_ok; auto.
  - apply binv_launch_fail; auto.
  - apply binv_disconnect, IH.
Qed.

(** Waking sleepers in turn while [sharedBrowser] is a live browser [n]:
    each of them resolves with [n], nothing else changes. *)
Lemma wake_all_live s is n :
  sharedBrowser s = Some n -> n ∈ live s ->
  tasks (foldl wake s is) = foldl (fun l i => <[i := Returned n]> l) (tasks s) is.
Proof.
  revert s; induction is as [|k is IH]; intros s Hs Hn; [reflexivity|].
  cbn [foldl].
  assert (Hw : wake s k = set_task s k (Returned n)).
  { unfold wake, run_prefix. rewrite Hs, bool_decide_true by exact Hn. reflexivity. }
  rewrite Hw, IH; [reflexivity|exact Hs|exact Hn].
Qed.

Lemma foldl_insert_lookup {T} (x : T) (is : list nat) :
  forall l, Forall (fun i => i < length l)%nat is ->
  forall i, i ∈ is \/ l !! i = Some x ->
  foldl (fun l i => <[i := x]> l) l is !! i = Some x.
Proof.
  induction is as [|k is IH]; intros l Hall i Hi; cbn [foldl].
  - destruct Hi as [Hi|Hi]; [apply elem_of_nil in Hi; contradiction|exact Hi].
  - apply List.Forall_cons_iff in Hall as [Hk Hall].
    apply IH.
    + eapply List.Forall_impl; [|exact Hall]. intros i' H. rewrite length_insert. exact H.
    + destruct (decide (i = k)) as [->|Hne].
      * right. apply list_lookup_insert_eq. exact Hk.
      * destruct Hi as [Hi|Hi].
        -- apply elem_of_cons in Hi as [Hi|Hi]; [contradiction|left; exact Hi].
        -- right. rewrite list_lookup_insert_ne by congruence. exact Hi.
Qed.

(** C9. In every state reachable from the start of the process, under any
    interleaving of callers, timers, launch outcomes and browser crashes:
    at most one [puppeteer.launch] is pending, and exactly while
    [browserLaunching] is set; at most one browser is live, and it is
    [sharedBrowser]; a caller arriving while a launch is pending goes to
    sleep instead of launching; a sleeping caller woken while the launch is
    still pending goes back to sleep and changes nothing; a sleeping caller
    woken while [sharedBrowser] is live receives it; when the pending launch
    resolves, the launcher and every sleeping caller woken after it, in any
    order, receive the very browser the launcher got. Only a caller woken
    when no launch is pending and no browser is live starts a launch, and it
    is then the only one in flight. *)
Theorem getBrowser_single_creation st :
  reachable st ->
  (launches_in_flight st <= 1)%nat /\
  (browserLaunching st = true <-> launches_in_flight st = 1%nat) /\
  (size (live st) <= 1)%nat /\
  (forall b, b ∈ live st -> sharedBrowser st = Some b) /\
  (browserLaunching st = true -> tasks (call st) !! length (tasks st) = Some Sleeping) /\
  (forall i j, tasks st !! j = Some Launching -> tasks st !! i = Some Sleeping ->
     tasks (wake (launch_ok st j) i) !! i = Some (Returned (next_id st)) /\
     tasks (wake (launch_ok st j) i) !! j = Some (Returned (next_id st))) /\
  (forall i, tasks st !! i = Some Sleeping -> browserLaunching st = true -> wake st i = st) /\
  (forall i b, tasks st !! i = Some Sleeping -> sharedBrowser st = Some b -> b ∈ live st ->
     wake st i = set_task st i (Returned b)) /\
  (forall j is, tasks st !! j = Some Launching ->
     Forall (fun i => tasks st !! i = Some Sleeping) is ->
     tasks (foldl wake (launch_ok st j) is) !! j = Some (Returned (next_id st)) /\
     Forall (fun i => tasks (foldl wake (launch_ok st j) is) !! i = Some (Returned (next_id st))) is) /\
  (forall i, tasks st !! i = Some Sleeping -> browserLaunching st = false ->
     (forall b, sharedBrowser st = Some b -> b ∉ live st) ->
     browserLaunching (wake st i) = true /\ tasks (wake st i) !! i = Some Launching /\
     launches_in_flight (wake st i) = 1%nat).
Proof.
  intros Hr. pose proof (binv_reachable _ Hr) as (Hc & Hl & Hn).
  unfold shared_set in Hl.
  split; [rewrite Hc; destruct (browserLaunching st); lia|].
  split; [rewrite Hc; destruct (browserLaunching st); split; congruence|].
  split.
  { transitivity (size (match sharedBrowser st with Some b => {[b]} | None => ∅ end : gset nat)).
    - apply subseteq_size, Hl.
    - destruct (sharedBrowser st); [rewrite size_singleton|rewrite size_empty]; lia. }
  split.
  { intros b Hb. destruct (sharedBrowser st) as [b'|]; set_solver. }
  split.
  { intros HL. specialize (Hn HL).
    unfold call, run_prefix, launch_or_wait, set_task; simpl.
    destruct (sharedBrowser st) as [b|].
    - rewrite bool_decide_false by set_solver. rewrite HL. simpl.
      apply list_lookup_insert_eq. rewrite length_app. simpl. lia.
    - rewrite HL. simpl. apply list_lookup_insert_eq. rewrite length_app. simpl. lia. }
  split.
  { intros i j Hj Hi.
    assert (Hij : i <> j) by congruence.
    unfold wake, run_prefix, launch_ok, set_task; simpl.
    rewrite bool_decide_true by set_solver. simpl.
    split.
    - apply list_lookup_insert_eq. rewrite length_insert. apply lookup_lt_is_Some_1. eauto.
    - rewrite list_lookup_insert_ne by congruence. apply list_lookup_insert_eq.
      apply lookup_lt_is_Some_1. eauto. }
  split.
  { intros i Hi HL. specialize (Hn HL).
    assert (Hw : wake st i = set_task st i Sleeping).
    { unfold wake, run_prefix, launch_or_wait.
      destruct (sharedBrowser st) as [b|].
      - rewrite bool_decide_false by set_solver. rewrite HL. reflexivity.
      - rewrite HL. reflexivity. }
    rewrite Hw. unfold set_task. rewrite list_insert_id by exact Hi.
    destruct st; reflexivity. }
  split.
  { intros i b _ Hs Hb. unfold wake, run_prefix. rewrite Hs, bool_decide_true by exact Hb.
    reflexivity. }
  split.
  { intros j is Hj Hall.
    assert (Hlen : Forall (fun i => i < length (tasks (launch_ok st j)))%nat is).
    { apply List.Forall_forall. intros i Hi. rewrite List.Forall_forall in Hall.
      specialize (Hall i Hi). simpl. rewrite length_insert.
      apply lookup_lt_is_Some_1. eauto. }
    rewrite (wake_all_live _ is (next_id st)); [|reflexivity|simpl; set_solver].
    split.
    - apply foldl_insert_lookup; [exact Hlen|]. right. simpl.
      apply list_lookup_insert_eq. apply lookup_lt_is_Some_1. eauto.
    - apply List.Forall_forall. intros i Hi.
      apply foldl_insert_lookup; [exact Hlen|]. left. apply list_elem_of_In, Hi. }
  intros i Hi HL Hdead.
  pose proof (count_insert _ _ _ Launching Hi) as Hcnt. simpl in Hcnt.
  rewrite HL in Hc.
  assert (Hw : wake st i = mk_bstate (sharedBrowser st) true (next_id st) (live st)
                             (<[i := Launching]> (tasks st))).
  { unfold wake, run_prefix, launch_or_wait.
    destruct (sharedBrowser st) as [b|] eqn:Hs.
    - rewrite bool_decide_false by (apply Hdead; reflexivity). rewrite HL. reflexivity.
    - rewrite HL. reflexivity. }
  rewrite Hw. unfold launches_in_flight in *. simpl.
  split; [reflexivity|]. split.
  - apply list_lookup_insert_eq. apply lookup_lt_is_Some_1. eauto.
  - lia.
Qed.

Lemma getBrowser_single_creation_witness :
  reachable (call (call (call init))) /\
  wake (call (call (call init))) 1 = call (call (call init)) /\
  Forall (fun i => tasks (foldl wake (launch_ok (call (call (call init))) 0) [1%nat; 2%nat]) !! i
                   = Some (Returned 0)) [1%nat; 2%nat].
Proof.
  assert (Hr : reachable (call (call (call init)))).
  { do 3 (eapply reach_step; [|apply step_call]). apply reach_init. }
  pose proof (getBrowser_single_creation _ Hr) as (_ & _ & _ & _ & _ & _ & Ha & _ & Hc & _).
  split; [exact Hr|]. split.
  - apply Ha; reflexivity.
  - refine (proj2 (Hc 0%nat [1%nat; 2%nat] eq_refl _)).
    repeat constructor.
Defined.

End BrowserFacts.


Module CleanupFacts.
Import TTLCache RateLimit ServerJs Cleanup RateSeq.

Section SortBy.
Context {A : Type} (key : A -> Z).

Lemma insert_by_perm x l : insert_by key x l ≡ₚ x :: l.
Proof.
  induction l as [|y l IH]; simpl; [reflexivity|].
  destruct (key x <=? key y); [reflexivity|].
  rewrite IH. apply perm_swap.
Qed.

Lemma sort_by_perm l : sort_by key l ≡ₚ l.
Proof.
  induction l as [|x l IH]; simpl; [reflexivity|].
  rewrite insert_by_perm, IH. reflexivity.
Qed.

Lemma Forall_insert_by (P : A -> Prop) x l :
  Forall P (insert_by key x l) <-> P x /\ Forall P l.
Proof.
  induction l as [|y l IH]; simpl.
  - rewrite !Forall_cons. split; [intros [? _]; split; [done|constructor]|intros [? _]; split; [done|constructor]].
  - destruct (key x <=? key y).
    + rewrite !Forall_cons. tauto.
    + rewrite !Forall_cons, IH. tauto.
Qed.

Lemma insert_by_sorted x l :
  StronglySorted (fun a b => key a <= key b) l ->
  StronglySorted (fun a b => key a <= key b) (insert_by key x l).
Proof.
  induction l as [|y l IH]; intros Hs; simpl.
  - repeat constructor.
  - apply StronglySorted_inv in Hs as [Hs Hy].
    destruct (key x <=? key y) eqn:E.
    + apply Z.leb_le in E. constructor; [constructor; assumption|].
      constructor; [lia|]. eapply List.Forall_impl; [|exact Hy]. simpl. lia.
    + apply Z.leb_gt in E. constructor; [apply IH, Hs|].
      apply Forall_insert_by. split; [lia|exact Hy].
Qed.

Lemma sort_by_sorted l : StronglySorted (fun a b => key a <= key b) (sort_by key l).
Proof.
  induction l as [|x l IH]; simpl; [constructor|]. apply insert_by_sorted, IH.
Qed.

Lemma sorted_take_drop n l a b :
  StronglySorted (fun a b => key a <= key b) l ->
  In a (take n l) -> In b (drop n l) -> key a <= key b.
Proof.
  revert n; induction l as [|x l IH]; intros n Hs Ha Hb; destruct n; simpl in *; try contradiction.
  apply StronglySorted_inv in Hs as [Hs Hx].
  destruct Ha as [<-|Ha].
  - rewrite List.Forall_forall in Hx. apply Hx. rewrite <- (List.firstn_skipn n l). apply List.in_or_app. right. exact Hb.
  - eapply IH; eassumption.
Qed.

End SortBy.

Lemma lookup_foldl_delete {A} (m : gmap string A) ks k :
  foldl (fun acc k => delete k acc) m ks !! k = if bool_decide (k ∈ ks) then None else m !! k.
Proof.
  revert m; induction ks as [|k' ks IH]; intros m; cbn [foldl].
  - rewrite bool_decide_false by set_solver. reflexivity.
  - rewrite IH. destruct (decide (k = k')) as [->|Hne].
    + rewrite (bool_decide_true (k' ∈ k' :: ks)) by set_solver.
      case_bool_decide; [reflexivity|]. apply lookup_delete_eq.
    + rewrite lookup_delete_ne by naive_solver.
      case_bool_decide as H1; case_bool_decide as H2; try reflexivity; exfalso; set_solver.
Qed.

Lemma size_foldl_delete {A} (m : gmap string A) ks :
  NoDup ks -> Forall (fun k => is_Some (m !! k)) ks ->
  (size (foldl (fun acc k => delete k acc) m ks) + length ks = size m)%nat.
Proof.
  revert m; induction ks as [|k ks IH]; intros m Hnd Hall; simpl; [lia|].
  apply NoDup_cons in Hnd as [Hk Hnd]. apply List.Forall_cons_iff in Hall as [Hkm Hall].
  assert (Hall' : Forall (fun k' => is_Some (delete k m !! k')) ks).
  { apply List.Forall_forall. intros k' Hin. rewrite List.Forall_forall in Hall.
    rewrite lookup_delete_ne; [apply Hall, Hin|]. intros Heq; subst.
    apply Hk, list_elem_of_In, Hin. }
  pose proof (IH (delete k m) Hnd Hall') as H.
  rewrite map_size_delete_Some in H by exact Hkm.
  assert (size m <> 0%nat).
  { intros Hz. apply map_size_empty_iff in Hz. subst. destruct Hkm as [? Hkm].
    rewrite lookup_empty in Hkm. discriminate. }
  lia.
Qed.

Lemma in_map_to_list {A} (m : gmap string A) k x :
  In (k, x) (map_to_list m) <-> m !! k = Some x.
Proof. rewrite <- list_elem_of_In. apply elem_of_map_to_list. Qed.

Lemma map_fst_fmap {A B} (l : list (A * B)) : map fst l = l.*1.
Proof. induction l as [|x l IH]; simpl; [reflexivity|]. rewrite IH. reflexivity. Qed.

(** X1. server.js cleanup, [characterCache] part. Whatever the insertion order
    [entries] of the map: up to 100 entries nothing is removed; above 100,
    exactly 30 entries are removed, the entries kept are unchanged, and no
    removed entry is younger than a kept one. *)
Theorem sweep_characters_evicts_oldest {A} (entries : list (string * cache_entry A))
    (m : gmap string (cache_entry A)) :
  entries ≡ₚ map_to_list m ->
  ((size m <= 100)%nat -> sweep_characters entries m = m) /\
  ((100 < size m)%nat ->
     size (sweep_characters entries m) = (size m - 30)%nat /\
     (forall k e, sweep_characters entries m !! k = Some e -> m !! k = Some e) /\
     (forall k e k' e', m !! k = Some e -> sweep_characters entries m !! k = None ->
        sweep_characters entries m !! k' = Some e' -> timestamp e <= timestamp e')).
Proof.
  intros Hp. unfold sweep_characters.
  split; [intros Hle; rewrite (proj2 (Nat.ltb_ge _ _) Hle); reflexivity|].
  intros Hgt. rewrite (proj2 (Nat.ltb_lt _ _) Hgt).
  set (key := fun kv : string * cache_entry A => timestamp kv.2).
  set (srt := sort_by key entries).
  assert (Hs : srt ≡ₚ map_to_list m) by (unfold srt; rewrite sort_by_perm; exact Hp).
  assert (Hin_s : forall k x, In (k, x) srt <-> m !! k = Some x).
  { intros k x. rewrite <- in_map_to_list. split; apply Permutation_in; [exact Hs|symmetry; exact Hs]. }
  assert (Hks : evicted_keys entries = map fst (take 30 srt)) by reflexivity.
  assert (Hnd : NoDup (evicted_keys entries)).
  { rewrite Hks.
    assert (H0 : NoDup (map fst srt)).
    { assert (Hm : map fst srt ≡ₚ map fst (map_to_list m)) by (apply Permutation_map; exact Hs).
      rewrite Hm, map_fst_fmap. apply NoDup_fst_map_to_list. }
    rewrite <- (List.firstn_skipn 30 srt), List.map_app in H0.
    apply NoDup_app in H0 as [H0 _]. exact H0. }
  assert (Hpres : Forall (fun k => is_Some (m !! k)) (evicted_keys entries)).
  { rewrite Hks. apply List.Forall_forall. intros k Hk.
    apply List.in_map_iff in Hk as [[k0 x] [Hk0 Hin]]. simpl in Hk0. subst k0.
    exists x. apply Hin_s. rewrite <- (List.firstn_skipn 30 srt). apply List.in_or_app. left. exact Hin. }
  assert (Hlen : length (evicted_keys entries) = 30%nat).
  { rewrite Hks, List.length_map, List.length_firstn.
    rewrite (Permutation_length Hs), length_map_to_list. lia. }
  pose proof (size_foldl_delete m _ Hnd Hpres) as Hsz.
  split; [lia|].
  split.
  { intros k e Hk. rewrite lookup_foldl_delete in Hk. case_bool_decide; [discriminate|exact Hk]. }
  intros k e k' e' Hk Hdel Hk'.
  rewrite lookup_foldl_delete in Hdel, Hk'.
  case_bool_decide as Hk'in; [discriminate|].
  case_bool_decide as Hkin; [|congruence].
  apply list_elem_of_In in Hkin. rewrite Hks in Hkin.
  apply List.in_map_iff in Hkin as [[k0 x] [Hk0 Hin]]. simpl in Hk0. subst k0.
  assert (Hx : m !! k = Some x).
  { apply Hin_s. rewrite <- (List.firstn_skipn 30 srt). apply List.in_or_app. left. exact Hin. }
  rewrite Hk in Hx. injection Hx as ->.
  assert (Hin' : In (k', e') srt) by (apply Hin_s; exact Hk').
  rewrite <- (List.firstn_skipn 30 srt) in Hin'. apply List.in_app_or in Hin' as [Hin'|Hin'].
  - exfalso. apply Hk'in. apply list_elem_of_In. rewrite Hks.
    apply List.in_map_iff. exists (k', e'). split; [reflexivity|exact Hin'].
  - exact (sorted_take_drop key 30 srt _ _ (sort_by_sorted key entries) Hin Hin').
Qed.

Lemma sweep_characters_evicts_oldest_witness :
  (100 < size big_cache)%nat /\
  size (sweep_characters (map_to_list big_cache) big_cache) = 71%nat.
Proof.
  assert (H : (100 < size big_cache)%nat) by (apply Nat.ltb_lt; vm_compute; reflexivity).
  split; [exact H|].
  rewrite (proj1 (proj2 (sweep_characters_evicts_oldest (map_to_list big_cache) big_cache
                            (reflexivity _)) H)).
  vm_compute. reflexivity.
Defined.

Lemma middleware_decision log ip t :
  fst (rateLimitMiddleware log ip t)
  = negb ((0 <? lastRequest (get_ip log ip 0)) && (t - lastRequest (get_ip log ip 0) <? 500)).
Proof.
  unfold rateLimitMiddleware.
  destruct ((0 <? lastRequest (get_ip log ip 0)) && (t - lastRequest (get_ip log ip 0) <? 500));
    reflexivity.
Qed.

Lemma check_decision log ip t :
  fst (checkRubinOTRateLimit log ip t)
  = negb ((0 <? lastRequest (get_ip log ip 0))
          && (t - lastRequest (get_ip log ip 0) <? MIN_RUBINOT_INTERVAL))
    && negb (MAX_RUBINOT_FETCHES_PER_MINUTE
             <=? Z.of_nat (length (recent t (requests (get_ip log ip 0))))).
Proof.
  unfold checkRubinOTRateLimit.
  destruct ((0 <? lastRequest (get_ip log ip 0))
            && (t - lastRequest (get_ip log ip 0) <? MIN_RUBINOT_INTERVAL)); [reflexivity|].
  destruct (MAX_RUBINOT_FETCHES_PER_MINUTE
            <=? Z.of_nat (length (recent t (requests (get_ip log ip 0))))); reflexivity.
Qed.

Lemma recent_recent now t l : now <= t -> recent t (recent now l) = recent t l.
Proof.
  intros Ht. unfold recent. induction l as [|x l IH]; simpl; [reflexivity|].
  destruct (now - x <? RATE_LIMIT_WINDOW) eqn:E1; simpl.
  - destruct (t - x <? RATE_LIMIT_WINDOW); rewrite IH; reflexivity.
  - destruct (t - x <? RATE_LIMIT_WINDOW) eqn:E2; [|exact IH].
    apply Z.ltb_ge in E1. apply Z.ltb_lt in E2. lia.
Qed.

Lemma recent_in_window now l : Forall (fun t => now - t < RATE_LIMIT_WINDOW) (recent now l).
Proof.
  unfold recent. apply List.Forall_forall. intros x Hx.
  apply List.filter_In in Hx as [_ Hx]. apply Z.ltb_lt, Hx.
Qed.

Lemma recent_append_idem now t l :
  now <= t -> recent now (recent t l ++ [t]) = recent t l ++ [t].
Proof.
  intros Ht. apply RateFacts.recent_all. apply List.Forall_app. split.
  - eapply List.Forall_impl; [|apply (recent_in_window t l)]. simpl. intros x Hx. lia.
  - constructor; [unfold RATE_LIMIT_WINDOW; lia|constructor].
Qed.

Lemma swept_rel_sweep now log : swept_rel now log (sweep_log now log).
Proof.
  intros ip. unfold sweep_log. rewrite lookup_omap.
  destruct (log !! ip) as [d|]; simpl; [|exact I].
  unfold sweep_log_entry.
  destruct ((length (recent now (requests d)) =? 0)%nat
            && (RATE_LIMIT_WINDOW <? now - lastRequest d)) eqn:E; simpl; [|reflexivity].
  apply andb_true_iff in E as [E1 E2]. apply Nat.eqb_eq, List.length_zero_iff_nil in E1.
  apply Z.ltb_lt in E2. split; assumption.
Qed.

Lemma swept_rel_insert now log log' ip d d' :
  swept_rel now log log' -> d' = mk_ip (recent now (requests d)) (lastRequest d) ->
  swept_rel now (<[ip:=d]> log) (<[ip:=d']> log').
Proof.
  intros H Hd k. destruct (decide (k = ip)) as [->|Hne].
  - rewrite !lookup_insert_eq. exact Hd.
  - rewrite !lookup_insert_ne by congruence. apply H.
Qed.

Lemma rec_rel_one now t : now <= t -> mk_ip [t] t = mk_ip (recent now [t]) t.
Proof.
  intros Ht. unfold recent. simpl.
  rewrite (proj2 (Z.ltb_lt (now - t) RATE_LIMIT_WINDOW)) by (unfold RATE_LIMIT_WINDOW; lia).
  reflexivity.
Qed.

(** One [checkRubinOTRateLimit] call at [t >= now] on a log and on its sweep. *)
Lemma check_step now log log' ip t :
  swept_rel now log log' -> now <= t ->
  fst (checkRubinOTRateLimit log' ip t) = fst (checkRubinOTRateLimit log ip t) /\
  swept_rel now (snd (checkRubinOTRateLimit log ip t)) (snd (checkRubinOTRateLimit log' ip t)).
Proof.
  intros H Ht. pose proof (H ip) as Hip. unfold rec_rel in Hip.
  destruct (log !! ip) as [d|] eqn:Hd; destruct (log' !! ip) as [d'|] eqn:Hd'; try contradiction.
  - subst d'. rewrite (RateFacts.check_known _ _ _ _ Hd), (RateFacts.check_known _ _ _ _ Hd').
    simpl requests. simpl lastRequest. rewrite (recent_recent now t) by exact Ht.
    destruct (_ && _); [split; [reflexivity|exact H]|].
    destruct (_ <=? _); [split; [reflexivity|exact H]|].
    split; [reflexivity|]. apply swept_rel_insert; [exact H|].
    simpl. rewrite recent_append_idem by exact Ht. reflexivity.
  - destruct Hip as [Hr Hl].
    rewrite (RateFacts.check_known _ _ _ _ Hd), (RateFacts.check_fresh _ _ _ Hd').
    assert (Hrt : recent t (requests d) = []).
    { rewrite <- (recent_recent now t) by exact Ht. rewrite Hr. reflexivity. }
    rewrite Hrt.
    replace ((0 <? lastRequest d) && (t - lastRequest d <? MIN_RUBINOT_INTERVAL)) with false
      by (symmetry; apply andb_false_iff; right; apply Z.ltb_ge;
          unfold RATE_LIMIT_WINDOW, MIN_RUBINOT_INTERVAL in *; lia).
    simpl. split; [reflexivity|]. apply swept_rel_insert; [exact H|].
    apply rec_rel_one, Ht.
  - rewrite (RateFacts.check_fresh _ _ _ Hd), (RateFacts.check_fresh _ _ _ Hd').
    split; [reflexivity|]. apply swept_rel_insert; [exact H|]. apply rec_rel_one, Ht.
Qed.

Lemma mw_known log ip t d :
  log !! ip = Some d ->
  rateLimitMiddleware log ip t =
  if (0 <? lastRequest d) && (t - lastRequest d <? 500) then (false, log)
  else (true, <[ip := mk_ip (requests d) t]> log).
Proof.
  intros Hd. unfold rateLimitMiddleware.
  rewrite (RateFacts.ensure_ip_present _ _ _ _ Hd), (RateFacts.get_ip_present _ _ _ _ Hd).
  reflexivity.
Qed.

Lemma mw_fresh log ip t :
  log !! ip = None -> rateLimitMiddleware log ip t = (true, <[ip := mk_ip [] t]> log).
Proof.
  intros Hn. unfold rateLimitMiddleware, ensure_ip, get_ip. rewrite Hn.
  simpl. rewrite insert_insert_eq. reflexivity.
Qed.

Lemma log_known log ip t d :
  log !! ip = Some d ->
  logRateLimitRequest log ip t = <[ip := mk_ip (recent t (requests d) ++ [t]) (lastRequest d)]> log.
Proof.
  intros Hd. unfold logRateLimitRequest.
  rewrite (RateFacts.ensure_ip_present _ _ _ _ Hd), (RateFacts.get_ip_present _ _ _ _ Hd).
  reflexivity.
Qed.

(** [logRateLimitRequest] at [t >= now] on a log and on its sweep, for an IP
    that has a record in the swept log. *)
Lemma log_step now log log' ip t :
  swept_rel now log log' -> is_Some (log' !! ip) -> now <= t ->
  swept_rel now (logRateLimitRequest log ip t) (logRateLimitRequest log' ip t).
Proof.
  intros H [d' Hd'] Ht. pose proof (H ip) as Hip. rewrite Hd' in Hip. unfold rec_rel in Hip.
  destruct (log !! ip) as [d|] eqn:Hd; [|contradiction]. subst d'.
  rewrite (log_known _ _ _ _ Hd), (log_known _ _ _ _ Hd'). simpl.
  rewrite (recent_recent now t) by exact Ht.
  apply swept_rel_insert; [exact H|]. simpl. rewrite recent_append_idem by exact Ht.
  reflexivity.
Qed.

(** One server.js request, its middleware at [t_mw >= now], on a log and on
    its sweep. *)
Lemma srv_step now log log' q :
  swept_rel now log log' -> now <= rq_mw_time q <= rq_time q ->
  fst (srv_request log' q) = fst (srv_request log q) /\
  swept_rel now (snd (srv_request log q)) (snd (srv_request log' q)).
Proof.
  intros H [Ht1 Ht2]. destruct q as [ip tm t miss]. unfold srv_request. simpl in *.
  pose proof (H ip) as Hip. unfold rec_rel in Hip.
  assert (Hadm : forall l l' d d', swept_rel now l l' -> l !! ip = Some d -> l' !! ip = Some d' ->
            swept_rel now (<[ip:=mk_ip (requests d) tm]> l) (<[ip:=mk_ip (requests d') tm]> l') ->
            swept_rel now (if miss then logRateLimitRequest (<[ip:=mk_ip (requests d) tm]> l) ip t
                           else <[ip:=mk_ip (requests d) tm]> l)
                          (if miss then logRateLimitRequest (<[ip:=mk_ip (requests d') tm]> l') ip t
                           else <[ip:=mk_ip (requests d') tm]> l')).
  { intros l l' d d' _ _ _ Hins. destruct miss; [|exact Hins].
    apply log_step; [exact Hins| |lia]. rewrite lookup_insert_eq. eauto. }
  destruct (log !! ip) as [d|] eqn:Hd; destruct (log' !! ip) as [d'|] eqn:Hd'; try contradiction.
  - subst d'. rewrite (mw_known _ _ _ _ Hd), (mw_known _ _ _ _ Hd'). simpl lastRequest.
    destruct (_ && _); [split; [reflexivity|exact H]|].
    simpl. split; [reflexivity|].
    apply (Hadm log log' d (mk_ip (recent now (requests d)) (lastRequest d))); auto.
    apply swept_rel_insert; [exact H|reflexivity].
  - destruct Hip as [Hr Hl].
    rewrite (mw_known _ _ _ _ Hd), (mw_fresh _ _ _ Hd').
    replace ((0 <? lastRequest d) && (tm - lastRequest d <? 500)) with false
      by (symmetry; apply andb_false_iff; right; apply Z.ltb_ge; unfold RATE_LIMIT_WINDOW in *; lia).
    simpl. split; [reflexivity|].
    destruct miss.
    + apply log_step; [| rewrite lookup_insert_eq; eauto | lia].
      apply swept_rel_insert; [exact H|]. simpl. rewrite Hr. reflexivity.
    + apply swept_rel_insert; [exact H|]. simpl. rewrite Hr. reflexivity.
  - rewrite (mw_fresh _ _ _ Hd), (mw_fresh _ _ _ Hd'). simpl. split; [reflexivity|].
    destruct miss.
    + apply log_step; [| rewrite lookup_insert_eq; eauto | lia].
      apply swept_rel_insert; [exact H|reflexivity].
    + apply swept_rel_insert; [exact H|reflexivity].
Qed.

Lemma srv_all_rel now qs : forall log log',
  swept_rel now log log' ->
  Forall (fun q => now <= rq_mw_time q <= rq_time q) qs ->
  fst (srv_all log' qs) = fst (srv_all log qs).
Proof.
  induction qs as [|q qs IH]; intros log log' H Hq; [reflexivity|].
  apply List.Forall_cons_iff in Hq as [Hq Hqs].
  destruct (srv_step now log log' q H Hq) as [Hb Hr].
  simpl. destruct (srv_request log q) as [b l1] eqn:E1. destruct (srv_request log' q) as [b' l1'] eqn:E2.
  simpl in Hb, Hr. subst b'.
  specialize (IH l1 l1' Hr Hqs).
  destruct (srv_all l1 qs) as [bs l2]. destruct (srv_all l1' qs) as [bs' l2'].
  simpl in IH. subst bs'. reflexivity.
Qed.

Lemma admit_all_rel now ip ts : forall log log',
  swept_rel now log log' -> Forall (fun t => now <= t) ts ->
  fst (admit_all log' ip ts) = fst (admit_all log ip ts).
Proof.
  induction ts as [|t ts IH]; intros log log' H Ht; [reflexivity|].
  apply List.Forall_cons_iff in Ht as [Ht Hts].
  destruct (check_step now log log' ip t H Ht) as [Hb Hr].
  simpl. destruct (checkRubinOTRateLimit log ip t) as [b l1] eqn:E1.
  destruct (checkRubinOTRateLimit log' ip t) as [b' l1'] eqn:E2.
  simpl in Hb, Hr. subst b'.
  specialize (IH l1 l1' Hr Hts).
  destruct (admit_all l1 ip ts) as [bs l2]. destruct (admit_all l1' ip ts) as [bs' l2'].
  simpl in IH. subst bs'. reflexivity.
Qed.

(** X2. server.js and Railway cleanup, rate-log part. After the sweep at [now],
    every record keeps only timestamps of the trailing window, and a record
    whose [lastRequest] is within the window is kept with the same
    [lastRequest]. The sweep changes no later decision: for any sequence of
    server.js requests (of any IPs, each through [rateLimitMiddleware] and,
    on a cache miss, [logRateLimitRequest]) made at [now] or later, the
    middleware decides every one of them as it would have without the
    sweep; and the same holds for any sequence of Railway
    [checkRubinOTRateLimit] calls at [now] or later. *)
Theorem sweep_log_preserves_decisions now log :
  (forall ip d, sweep_log now log !! ip = Some d ->
     Forall (fun t => now - t < RATE_LIMIT_WINDOW) (requests d)) /\
  (forall ip d, log !! ip = Some d -> now - lastRequest d <= RATE_LIMIT_WINDOW ->
     sweep_log now log !! ip = Some (mk_ip (recent now (requests d)) (lastRequest d))) /\
  (forall qs, Forall (fun q => now <= rq_mw_time q <= rq_time q) qs ->
     fst (srv_all (sweep_log now log) qs) = fst (srv_all log qs)) /\
  (forall ip ts, Forall (fun t => now <= t) ts ->
     fst (admit_all (sweep_log now log) ip ts) = fst (admit_all log ip ts)).
Proof.
  split.
  { unfold sweep_log. intros ip d Hd. rewrite lookup_omap in Hd.
    destruct (log !! ip) as [d0|]; simpl in Hd; [|discriminate].
    unfold sweep_log_entry in Hd.
    destruct ((length (recent now (requests d0)) =? 0)%nat
              && (RATE_LIMIT_WINDOW <? now - lastRequest d0)); [discriminate|].
    injection Hd as <-. apply recent_in_window. }
  split.
  { unfold sweep_log. intros ip d Hd Hl. rewrite lookup_omap, Hd. simpl. unfold sweep_log_entry.
    rewrite (proj2 (Z.ltb_ge _ _) Hl), andb_false_r. reflexivity. }
  split.
  - intros qs Hqs. apply (srv_all_rel now); [apply swept_rel_sweep|exact Hqs].
  - intros ip ts Hts. apply (admit_all_rel now); [apply swept_rel_sweep|exact Hts].
Qed.

Lemma sweep_log_preserves_decisions_witness :
  sweep_log 70000 stale_log !! "1.2.3.4" = None /\
  fst (srv_all (sweep_log 70000 stale_log) two_quick_calls) = fst (srv_all stale_log two_quick_calls) /\
  fst (srv_all stale_log two_quick_calls) = [true; false].
Proof.
  split; [vm_compute; reflexivity|]. split; [|vm_compute; reflexivity].
  apply (proj1 (proj2 (proj2 (sweep_log_preserves_decisions 70000 stale_log)))).
  repeat constructor; simpl; lia.
Defined.

End CleanupFacts.

Module CharCacheFacts.
Import TTLCache ServerJs Cleanup CleanupFacts CacheFacts.

Lemma evicted_keys_facts {A} (entries : list (string * cache_entry A))
    (m : gmap string (cache_entry A)) :
  entries ≡ₚ map_to_list m -> (100 < size m)%nat ->
  NoDup (evicted_keys entries) /\
  Forall (fun k => is_Some (m !! k)) (evicted_keys entries) /\
  length (evicted_keys entries) = 30%nat.
Proof.
  intros Hp Hgt.
  set (key := fun kv : string * cache_entry A => timestamp kv.2).
  set (srt := sort_by key entries).
  assert (Hs : srt ≡ₚ map_to_list m) by (unfold srt; rewrite sort_by_perm; exact Hp).
  assert (Hks : evicted_keys entries = map fst (take 30 srt)) by reflexivity.
  rewrite Hks. split; [|split].
  - assert (H0 : NoDup (map fst srt)).
    { assert (Hm : map fst srt ≡ₚ map fst (map_to_list m)) by (apply Permutation_map; exact Hs).
      rewrite Hm, map_fst_fmap. apply NoDup_fst_map_to_list. }
    rewrite <- (List.firstn_skipn 30 srt), List.map_app in H0.
    apply NoDup_app in H0 as [H0 _]. exact H0.
  - apply List.Forall_forall. intros k Hk.
    apply List.in_map_iff in Hk as [[k0 x] [Hk0 Hin]]. simpl in Hk0. subst k0.
    exists x. apply in_map_to_list. apply (Permutation_in _ Hs).
    rewrite <- (List.firstn_skipn 30 srt). apply List.in_or_app. left. exact Hin.
  - rewrite List.length_map, List.length_firstn.
    rewrite (Permutation_length Hs), length_map_to_list. lia.
Qed.

(** C3 (counterexample). In the 101-entry [big_cache], the entry of [k0]
    is fresh at time 1000 for the character-cache duration, so a read finds
    it; after the character-cache cleanup, which evicts the 30 oldest entries
    whatever their age, the same read at the same time finds nothing: the
    sweep does change what [get] returns. *)
Lemma cache_get_fresh_counterexample :
  cache_get CHARACTER_CACHE_DURATION big_cache k0 1000 = Some tt /\
  cache_get CHARACTER_CACHE_DURATION (sweep_characters (map_to_list big_cache) big_cache) k0 1000
    = None.
Proof. split; vm_compute; reflexivity. Qed.

(** C3 (amended). For either cache and any duration [ttl]: a lookup returns
    the stored value exactly when the entry is stored and strictly younger
    than [ttl]; a read at [timestamp + ttl] finds nothing; the list-cache
    sweep, run at any time up to the read, never changes a list-cache read.
    The character-cache cleanup (for any insertion order [entries] of the
    map) changes nothing up to 100 entries and never makes a read return a
    value it did not return before; above 100 entries it removes 30 entries,
    and a read of any removed key, fresh or not, finds nothing. *)
Theorem cache_get_fresh_amended :
  forall (A : Type) (ttl : Z) (m : gmap string (cache_entry A)) (k : string) (now : Z) (v : A),
    (cache_get ttl m k now = Some v <->
       exists e, m !! k = Some e /\ now - timestamp e < ttl /\ data e = v)
    /\ (forall e, m !! k = Some e -> cache_get ttl m k (timestamp e + ttl) = None)
    /\ (forall t_sweep, t_sweep <= now ->
          cache_get CACHE_DURATION (sweep_cache t_sweep m) k now
          = cache_get CACHE_DURATION m k now)
    /\ (forall entries, entries ≡ₚ map_to_list m ->
          ((size m <= 100)%nat ->
             cache_get ttl (sweep_characters entries m) k now = cache_get ttl m k now)
          /\ (cache_get ttl (sweep_characters entries m) k now = Some v ->
               cache_get ttl m k now = Some v)
          /\ ((100 < size m)%nat ->
               size (sweep_characters entries m) = (size m - 30)%nat /\
               (k ∈ evicted_keys entries ->
                  is_Some (m !! k) /\ cache_get ttl (sweep_characters entries m) k now = None))).
Proof.
  intros A ttl m k now v.
  destruct (cache_get_fresh_iff A ttl m k now v) as (H1 & H2 & H3).
  split; [exact H1|]. split; [exact H2|]. split; [exact H3|].
  intros entries Hp. split; [|split].
  - intros Hle. unfold sweep_characters. rewrite (proj2 (Nat.ltb_ge _ _) Hle). reflexivity.
  - unfold cache_get, sweep_characters. destruct (100 <? size m)%nat; [|tauto].
    rewrite lookup_foldl_delete. case_bool_decide; [discriminate|tauto].
  - intros Hgt. destruct (evicted_keys_facts entries m Hp Hgt) as (Hnd & Hpres & Hlen).
    unfold sweep_characters. rewrite (proj2 (Nat.ltb_lt _ _) Hgt).
    pose proof (size_foldl_delete m _ Hnd Hpres) as Hsz.
    split; [lia|]. intros Hk. split.
    + rewrite List.Forall_forall in Hpres. apply Hpres, list_elem_of_In, Hk.
    + unfold cache_get. rewrite lookup_foldl_delete, bool_decide_true by exact Hk. reflexivity.
Qed.

Lemma cache_get_fresh_amended_witness :
  k0 ∈ evicted_keys (map_to_list big_cache) /\ (100 < size big_cache)%nat /\
  cache_get CHARACTER_CACHE_DURATION big_cache k0 1000 = Some tt /\
  cache_get CHARACTER_CACHE_DURATION (sweep_characters (map_to_list big_cache) big_cache) k0 1000
    = None.
Proof.
  assert (Hk : k0 ∈ evicted_keys (map_to_list big_cache))
    by (apply (bool_decide_eq_true_1 (k0 ∈ evicted_keys (map_to_list big_cache))); vm_compute; reflexivity).
  assert (Hgt : (100 < size big_cache)%nat) by (apply Nat.ltb_lt; vm_compute; reflexivity).
  split; [exact Hk|]. split; [exact Hgt|].
  split; [vm_compute; reflexivity|].
  pose proof (cache_get_fresh_amended unit CHARACTER_CACHE_DURATION big_cache k0 1000 tt)
    as (_ & _ & _ & H4).
  destruct (H4 (map_to_list big_cache) (reflexivity _)) as (_ & _ & H5).
  destruct (H5 Hgt) as (_ & H6).
  exact (proj2 (H6 Hk)).
Defined.

End CharCacheFacts.

Module RateSeqFacts.
Import RateLimit RateSeq.

Lemma get_ip_ensure log ip i : get_ip (ensure_ip log ip i) ip i = get_ip log ip i.
Proof.
  unfold get_ip, ensure_ip. destruct (log !! ip) eqn:E; [rewrite E; reflexivity|].
  rewrite lookup_insert_eq. reflexivity.
Qed.

Lemma middleware_last log ip t b log' :
  rateLimitMiddleware log ip t = (b, log') ->
  if b then (lastRequest (get_ip log ip 0) <= 0 \/ lastRequest (get_ip log ip 0) + 500 <= t)
            /\ lastRequest (get_ip log' ip 0) = t
  else lastRequest (get_ip log' ip 0) = lastRequest (get_ip log ip 0).
Proof.
  unfold rateLimitMiddleware.
  destruct ((0 <? lastRequest (get_ip log ip 0)) && (t - lastRequest (get_ip log ip 0) <? 500)) eqn:E;
    intros H; injection H as <- <-.
  - rewrite get_ip_ensure. reflexivity.
  - split.
    + apply andb_false_iff in E as [E|E]; [apply Z.ltb_ge in E|apply Z.ltb_ge in E]; lia.
    + unfold get_ip at 1. rewrite lookup_insert_eq. reflexivity.
Qed.

Lemma check_last log ip t b log' :
  checkRubinOTRateLimit log ip t = (b, log') ->
  if b then (lastRequest (get_ip log ip 0) <= 0
             \/ lastRequest (get_ip log ip 0) + MIN_RUBINOT_INTERVAL <= t)
            /\ lastRequest (get_ip log' ip 0) = t
  else lastRequest (get_ip log' ip 0) = lastRequest (get_ip log ip 0).
Proof.
  unfold checkRubinOTRateLimit.
  destruct ((0 <? lastRequest (get_ip log ip 0))
            && (t - lastRequest (get_ip log ip 0) <? MIN_RUBINOT_INTERVAL)) eqn:E.
  - intros H; injection H as <- <-. rewrite get_ip_ensure. reflexivity.
  - destruct (MAX_RUBINOT_FETCHES_PER_MINUTE
              <=? Z.of_nat (length (recent t (requests (get_ip log ip 0)))));
      intros H; injection H as <- <-.
    + rewrite get_ip_ensure. reflexivity.
    + split.
      * apply andb_false_iff in E as [E|E]; [apply Z.ltb_ge in E|apply Z.ltb_ge in E]; lia.
      * unfold get_ip at 1. rewrite lookup_insert_eq. reflexivity.
Qed.

Lemma recent_all_kept u acc :
  Forall (fun a => u - a < RATE_LIMIT_WINDOW) acc -> recent u acc = acc.
Proof.
  unfold recent. induction 1 as [|a acc Ha _ IH]; simpl; [reflexivity|].
  rewrite (proj2 (Z.ltb_lt _ _) Ha), IH. reflexivity.
Qed.

Lemma log_all_known log ip acc L t0 ts :
  log !! ip = Some (mk_ip acc L) ->
  Forall (fun a => t0 <= a) acc ->
  Forall (fun u => t0 <= u < t0 + RATE_LIMIT_WINDOW) ts ->
  log_all log ip ts !! ip = Some (mk_ip (acc ++ ts) L).
Proof.
  revert log acc. induction ts as [|u ts IH]; intros log acc Hl Hacc Hts; simpl.
  - rewrite app_nil_r. exact Hl.
  - apply List.Forall_cons_iff in Hts as [Hu Hts].
    replace (acc ++ u :: ts) with ((acc ++ [u]) ++ ts) by (rewrite <- app_assoc; reflexivity).
    apply IH; [| |exact Hts].
    + unfold logRateLimitRequest, ensure_ip, get_ip. rewrite Hl. simpl.
      rewrite recent_all_kept; [apply lookup_insert_eq|].
      eapply List.Forall_impl; [|exact Hacc]. simpl. intros a Ha. lia.
    + apply List.Forall_app. split; [exact Hacc|]. constructor; [lia|constructor].
Qed.

Lemma log_all_other log ip ip' ts :
  ip' <> ip -> log_all log ip ts !! ip' = log !! ip'.
Proof.
  intros Hne. revert log. induction ts as [|u ts IH]; intros log; simpl; [reflexivity|].
  rewrite IH. unfold logRateLimitRequest, ensure_ip.
  rewrite lookup_insert_ne by congruence.
  destruct (log !! ip); [reflexivity|]. rewrite lookup_insert_ne by congruence. reflexivity.
Qed.

(** X3. Both guards space the calls they let through: over any sequence of requests
    of one identity, two successive requests admitted by server.js's
    [rateLimitMiddleware] are at least 500 ms apart, and two successive
    calls admitted by the Railway [checkRubinOTRateLimit] at least
    [MIN_RUBINOT_INTERVAL] = 2000 ms apart (the first one only from the
    identity's stored [lastRequest], if positive). *)
Theorem guards_space_admitted_calls log ip ts :
  spaced 500 (lastRequest (get_ip log ip 0)) (admitted_times ts (fst (mw_all log ip ts))) /\
  spaced MIN_RUBINOT_INTERVAL (lastRequest (get_ip log ip 0))
         (admitted_times ts (fst (admit_all log ip ts))).
Proof.
  split; revert log; induction ts as [|t ts IH]; intros log; simpl; try exact I.
  - destruct (rateLimitMiddleware log ip t) as [b log'] eqn:E.
    pose proof (middleware_last _ _ _ _ _ E) as H.
    specialize (IH log').
    destruct (mw_all log' ip ts) as [bs log''] eqn:E2. simpl in *.
    destruct b; [destruct H as [H1 H2]; split; [exact H1|rewrite <- H2; exact IH]|].
    rewrite <- H. exact IH.
  - destruct (checkRubinOTRateLimit log ip t) as [b log'] eqn:E.
    pose proof (check_last _ _ _ _ _ E) as H.
    specialize (IH log').
    destruct (admit_all log' ip ts) as [bs log''] eqn:E2. simpl in *.
    destruct b; [destruct H as [H1 H2]; split; [exact H1|rewrite <- H2; exact IH]|].
    rewrite <- H. exact IH.
Qed.

(** X4. server.js [logRateLimitRequest] only records, it never caps: starting
    from an IP without a record, every call made within one window of the
    first is kept, in order (beyond [MAX_REQUESTS_PER_MINUTE] = 20 too), the
    record's [lastRequest] stays at the time of the first call, and no
    other IP's record changes. *)
Theorem logRateLimitRequest_never_caps log ip t ts :
  log !! ip = None ->
  Forall (fun u => t <= u < t + RATE_LIMIT_WINDOW) ts ->
  log_all log ip (t :: ts) !! ip = Some (mk_ip (t :: ts) t) /\
  (forall ip', ip' <> ip -> log_all log ip (t :: ts) !! ip' = log !! ip').
Proof.
  intros Hn Hts. split; [|intros ip' Hne; apply log_all_other, Hne].
  simpl. apply (log_all_known _ _ [t] t t); [|constructor; [lia|constructor]|exact Hts].
  unfold logRateLimitRequest, ensure_ip, get_ip. rewrite Hn. simpl.
  apply lookup_insert_eq.
Qed.

Lemma logRateLimitRequest_never_caps_witness :
  MAX_REQUESTS_PER_MINUTE < Z.of_nat (length (T0 :: calls_24)) /\
  log_all ∅ "1.2.3.4" (T0 :: calls_24) !! "1.2.3.4" = Some (mk_ip (T0 :: calls_24) T0).
Proof.
  split; [vm_compute; reflexivity|].
  apply (proj1 (logRateLimitRequest_never_caps ∅ "1.2.3.4" T0 calls_24 (lookup_empty _) ltac:(
    apply List.Forall_forall; intros u Hu; unfold calls_24 in Hu;
    apply List.in_map_iff in Hu as [k [<- Hk]]; apply List.in_seq in Hk;
    unfold RATE_LIMIT_WINDOW; lia))).
Defined.

End RateSeqFacts.


Module DeathsExtraFacts.
Import TTLCache RateLimit ServerJs DeathsExtra CleanupFacts OrderFacts.

Lemma collect_map_Some_fulfilled {A} (rs : list (settled A)) vs :
  collect (map Some rs) = Some (Fulfilled vs) -> rs = map Fulfilled vs.
Proof.
  revert vs. induction rs as [|r rs IH]; intros vs H; simpl in H.
  - injection H as <-. reflexivity.
  - destruct r as [v|].
    + destruct (collect (map Some rs)) as [[vs'|]|] eqn:E; try discriminate.
      injection H as <-. rewrite (IH vs' eq_refl). reflexivity.
    + destruct (collect (map Some rs)) as [[vs'|]|]; discriminate.
Qed.

Lemma characterPromise_death cc now env d v :
  characterPromise cc now env d = Fulfilled v -> e_death (fst v) = d.
Proof.
  unfold characterPromise.
  destruct (cache_get CHARACTER_CACHE_DURATION cc (char_key d) now);
    [intros H; injection H as <-; reflexivity|].
  destruct (newPage_ok env); simpl; [|discriminate].
  destruct (setup_ok env); simpl; [|intros H; injection H as <-; reflexivity].
  destruct (close_ok env); intros H; injection H as <-; reflexivity.
Qed.

Lemma imap_fulfilled_deaths (f : nat -> death -> settled (enriched * cache_write)) xs vs :
  (forall i d v, f i d = Fulfilled v -> e_death (fst v) = d) ->
  imap f xs = map Fulfilled vs -> map (fun v => e_death (fst v)) vs = xs.
Proof.
  revert f vs. induction xs as [|x xs IH]; intros f vs Hf H; simpl in H.
  - destruct vs; [reflexivity|discriminate].
  - destruct vs as [|v vs]; [discriminate|]. simpl in H. injection H as H1 H2.
    simpl. rewrite (Hf _ _ _ H1). f_equal. apply (IH (f ∘ S)); [|exact H2].
    intros i d w Hw. exact (Hf _ _ _ Hw).
Qed.

Lemma partition_deaths cc now deaths :
  map e_death (lefts (map (cache_status cc now) deaths))
    ++ rights (map (cache_status cc now) deaths) ≡ₚ deaths.
Proof.
  induction deaths as [|d ds IH]; [reflexivity|].
  unfold lefts, rights in *. simpl.
  destruct (cache_status cc now d) as [e|d'] eqn:Hs; simpl.
  - unfold cache_status in Hs.
    destruct (cache_get CHARACTER_CACHE_DURATION cc (char_key d) now); [|discriminate].
    injection Hs as <-. simpl. apply perm_skip, IH.
  - unfold cache_status in Hs.
    destruct (cache_get CHARACTER_CACHE_DURATION cc (char_key d) now); [discriminate|].
    injection Hs as <-. rewrite <- Permutation_middle. apply perm_skip, IH.
Qed.

Lemma take_nil_inv {A} (l : list A) : take 3 l = [] -> l = [].
Proof. destruct l; [reflexivity|discriminate]. Qed.

(** X5. server.js [/api/deaths], lines 728-888. Whenever the enrichment phase
    answers with a list [l] (the character promises settling once each, in
    any order), the list it stores under the request's cache key holds every
    parsed row exactly once, sorted by the index of the first row of the same
    player; the answer is that list, VIP-filtered or not. *)
Theorem enriched_list_complete_sorted st r now env l :
  Permutation (completion env)
              (seq 0 (length (deathsToFetch_of (characterCache st) now (parsed env)))) ->
  fst (enrich_phase st r now env) = Some (json l) ->
  exists full,
    cache (snd (enrich_phase st r now env)) !! cacheKey r = Some (mk_entry full now) /\
    map e_death full ≡ₚ parsed env /\
    StronglySorted (fun a b => order_key (parsed env) a <= order_key (parsed env) b) full /\
    (l = full \/ l = List.filter is_vip full).
Proof.
  unfold enrich_phase, deathsToFetch_of. cbv zeta.
  destruct (parsed env) as [|d0 ds] eqn:Hparsed; intros Hp Hl.
  { simpl in Hl. injection Hl as <-. exists []. simpl. unfold cache_set.
    rewrite lookup_insert_eq.
    split; [reflexivity|]. split; [reflexivity|]. split; [constructor|left; reflexivity]. }
  pose proof (partition_deaths (characterCache st) now (d0 :: ds)) as Hpart.
  set (ws := map (cache_status (characterCache st) now) (d0 :: ds)) in *.
  destruct (take 3 (rights ws)) as [|x xs] eqn:Hf.
  - simpl in Hl. injection Hl as <-.
    eexists. simpl. unfold cache_set. rewrite lookup_insert_eq. split; [reflexivity|].
    split; [|split; [apply sort_by_sorted|left; reflexivity]].
    rewrite (Permutation_map e_death (sort_by_perm _ _)).
    rewrite (take_nil_inv _ Hf), app_nil_r in Hpart. exact Hpart.
  - rewrite (promise_all_perm _ (completion env)) in Hl |- * by (rewrite length_imap; exact Hp).
    destruct (collect (map Some (imap (fun i d => characterPromise (characterCache st) now (details env i) d) (x :: xs))))
      as [[newly|]|] eqn:Hc; simpl in Hl; try discriminate.
    injection Hl as <-.
    eexists. simpl. unfold cache_set. rewrite lookup_insert_eq. split; [reflexivity|].
    split; [|split; [apply sort_by_sorted|destruct (vipFilter r); [right|left]; reflexivity]].
    rewrite (Permutation_map e_death (sort_by_perm _ _)).
    apply collect_map_Some_fulfilled in Hc.
    pose proof (imap_fulfilled_deaths _ _ _ (fun i d v H => characterPromise_death _ _ _ _ _ H) Hc)
      as Hnew.
    rewrite !List.map_app, List.map_map, Hnew, List.map_map.
    rewrite (List.map_ext (fun d => e_death (mk_enriched d sentinel false true)) (fun d => d))
      by reflexivity.
    rewrite List.map_id.
    rewrite <- Hpart, <- (List.firstn_skipn 3 (rights ws)), Hf. reflexivity.
Qed.

Lemma enriched_list_complete_sorted_witness :
  Permutation (completion (env_rows [bob_1; carol; bob_2] (fun _ => detail_ok) [2; 0; 1]%nat))
    (seq 0 (length (deathsToFetch_of (characterCache empty_state) 1000
                      (parsed (env_rows [bob_1; carol; bob_2] (fun _ => detail_ok) [2; 0; 1]%nat))))) /\
  exists l,
    fst (enrich_phase empty_state req20 1000
           (env_rows [bob_1; carol; bob_2] (fun _ => detail_ok) [2; 0; 1]%nat)) = Some (json l) /\
    exists full,
      cache (snd (enrich_phase empty_state req20 1000
                    (env_rows [bob_1; carol; bob_2] (fun _ => detail_ok) [2; 0; 1]%nat)))
        !! cacheKey req20 = Some (mk_entry full 1000) /\
      map e_death full ≡ₚ [bob_1; carol; bob_2] /\
      StronglySorted (fun a b => order_key [bob_1; carol; bob_2] a <= order_key [bob_1; carol; bob_2] b) full /\
      (l = full \/ l = List.filter is_vip full).
Proof.
  assert (Hp : Permutation (completion (env_rows [bob_1; carol; bob_2] (fun _ => detail_ok) [2; 0; 1]%nat))
    (seq 0 (length (deathsToFetch_of (characterCache empty_state) 1000
                      (parsed (env_rows [bob_1; carol; bob_2] (fun _ => detail_ok) [2; 0; 1]%nat)))))).
  { vm_compute. apply (perm_trans (perm_swap 0%nat 2%nat [1%nat])). apply perm_skip, perm_swap. }
  split; [exact Hp|].
  eexists. split; [vm_compute; reflexivity|].
  apply (enriched_list_complete_sorted empty_state req20 1000
           (env_rows [bob_1; carol; bob_2] (fun _ => detail_ok) [2; 0; 1]%nat)); [exact Hp|].
  vm_compute. reflexivity.
Defined.

Lemma rights_nil_deaths cc now deaths :
  rights (map (cache_status cc now) deaths) = [] ->
  map e_death (lefts (map (cache_status cc now) deaths)) = deaths.
Proof.
  induction deaths as [|d ds IH]; intros H; [reflexivity|].
  unfold lefts, rights in *. simpl in *.
  destruct (cache_status cc now d) as [e|d'] eqn:Hs; simpl in *; [|discriminate].
  unfold cache_status in Hs.
  destruct (cache_get CHARACTER_CACHE_DURATION cc (char_key d) now); [|discriminate].
  injection Hs as <-. simpl. f_equal. apply IH, H.
Qed.

(** X6. server.js [/api/deaths], lines 779-793. When the character of every
    parsed row is fresh in the character cache, the handler answers with
    all the parsed rows, VIP or not, whatever the [vip] parameter says: that
    branch never applies the VIP filter. *)
Theorem all_cached_branch_ignores_vip st r now env v :
  parsed env <> [] ->
  deathsToFetch_of (characterCache st) now (parsed env) = [] ->
  exists l,
    fst (enrich_phase st r now env) = Some (json l) /\
    map e_death l ≡ₚ parsed env /\
    fst (enrich_phase st (with_vip r v) now env) = Some (json l).
Proof.
  unfold enrich_phase, deathsToFetch_of. cbv zeta.
  destruct (parsed env) as [|d0 ds]; intros Hne Hf; [congruence|].
  rewrite Hf.
  eexists. split; [reflexivity|]. split; [|reflexivity].
  rewrite (Permutation_map e_death (sort_by_perm _ _)).
  rewrite rights_nil_deaths; [reflexivity|]. apply take_nil_inv, Hf.
Qed.

(** A VIP request ([vip=true]) for the rows [bob_1; carol; bob_2], whose
    characters are all cached: the non-VIP Carol is in the answer. *)
Lemma all_cached_branch_ignores_vip_witness :
  parsed (env_rows [bob_1; carol; bob_2] (fun _ => detail_ok) []) <> [] /\
  deathsToFetch_of cached_chars 2000 [bob_1; carol; bob_2] = [] /\
  exists l,
    fst (enrich_phase (mk_state ∅ cached_chars ∅) req20_vip 2000
           (env_rows [bob_1; carol; bob_2] (fun _ => detail_ok) [])) = Some (json l) /\
    map e_death l ≡ₚ [bob_1; carol; bob_2] /\
    fst (enrich_phase (mk_state ∅ cached_chars ∅) (with_vip req20_vip None) 2000
           (env_rows [bob_1; carol; bob_2] (fun _ => detail_ok) [])) = Some (json l).
Proof.
  split; [discriminate|]. split; [vm_compute; reflexivity|].
  apply (all_cached_branch_ignores_vip (mk_state ∅ cached_chars ∅) req20_vip 2000
           (env_rows [bob_1; carol; bob_2] (fun _ => detail_ok) []) None);
    [discriminate|vm_compute; reflexivity].
Defined.

Lemma cacheKey_with_vip r v : cacheKey (with_vip r v) = cacheKey r.
Proof. reflexivity. Qed.

Lemma enrich_phase_state_vip st r now env v :
  snd (enrich_phase st (with_vip r v) now env) = snd (enrich_phase st r now env).
Proof.
  unfold enrich_phase. rewrite cacheKey_with_vip. cbv zeta.
  destruct (parsed env); [reflexivity|].
  destruct (take 3 _); [reflexivity|].
  destruct (promise_all _ _) as [[|]|]; reflexivity.
Qed.

(** X7. server.js [/api/deaths]: the [vip] query parameter only selects what is
    sent back. The server state after a request (list cache, character
    cache, request log) is the same whatever its value; in particular the
    list cache always receives the unfiltered list. *)
Theorem vip_param_never_changes_state st r t_mw t env v :
  snd (handle_deaths st (with_vip r v) t_mw t env) = snd (handle_deaths st r t_mw t env).
Proof.
  unfold handle_deaths. rewrite cacheKey_with_vip. simpl ip.
  destruct (rateLimitMiddleware (requestLog st) (ip r) t_mw) as [ok log1].
  destruct (negb ok); [reflexivity|].
  destruct (cache_get _ _ _ _); [reflexivity|].
  destruct (negb (browser_ok env)); [reflexivity|].
  destruct (fst (run_retry _ _)); try reflexivity.
  apply enrich_phase_state_vip.
Qed.

Lemma characterPromise_write_informative cc now denv d e k w :
  characterPromise cc now denv d = Fulfilled (e, Some (k, w)) -> informative w.
Proof.
  unfold characterPromise.
  destruct (cache_get CHARACTER_CACHE_DURATION cc (char_key d) now); [discriminate|].
  destruct (newPage_ok denv); simpl; [|discriminate].
  destruct (setup_ok denv); simpl; [|discriminate].
  set (cd := fetchCharacterData (page_outcome denv)).
  destruct (negb (String.eqb (vocation cd) "Unknown") || negb (String.eqb (residence cd) "Unknown"))
    eqn:Hinf.
  2:{ destruct (close_ok denv); discriminate. }
  intros H.
  assert (Hw : w = mk_entry cd now) by (destruct (close_ok denv); congruence).
  subst w. unfold informative. simpl.
  apply orb_true_iff in Hinf as [Hv|Hv]; apply negb_true_iff, String.eqb_neq in Hv; [left|right]; exact Hv.
Qed.

Lemma apply_writes_informative cc results order :
  map_Forall (fun _ e => informative e) cc ->
  (forall i e k w, results !! i = Some (Fulfilled (e, Some (k, w))) -> informative w) ->
  map_Forall (fun _ e => informative e) (apply_writes cc results order).
Proof.
  revert cc. induction order as [|i order IH]; intros cc Hcc Hres; simpl; [exact Hcc|].
  apply IH; [|exact Hres].
  destruct (results !! i) as [[[e [[k w]|]]|]|] eqn:Hi; try exact Hcc.
  apply map_Forall_insert_2; [|exact Hcc]. exact (Hres _ _ _ _ Hi).
Qed.

Lemma enrich_phase_informative st r now env :
  map_Forall (fun _ e => informative e) (characterCache st) ->
  map_Forall (fun _ e => informative e) (characterCache (snd (enrich_phase st r now env))).
Proof.
  intros Hcc. unfold enrich_phase. cbv zeta.
  destruct (parsed env); [exact Hcc|].
  destruct (take 3 _) as [|x xs] eqn:Hf; [exact Hcc|].
  assert (Hw : map_Forall (fun _ e => informative e)
     (apply_writes (characterCache st)
        (imap (fun i d => characterPromise (characterCache st) now (details env i) d) (x :: xs))
        (completion env))).
  { apply apply_writes_informative; [exact Hcc|].
    intros i e k w Hi. rewrite list_lookup_imap in Hi.
    destruct ((x :: xs) !! i) as [dd|]; simpl in Hi; [|discriminate].
    injection Hi as Hi. exact (characterPromise_write_informative _ _ _ _ _ _ _ Hi). }
  destruct (promise_all _ _) as [[|]|]; exact Hw.
Qed.

(** X8. server.js [/api/deaths], lines 832-838. The character cache only ever
    holds details with a known vocation or a known residence: a request
    keeps that invariant whatever the upstream pages return. *)
Theorem characterCache_only_informative st r t_mw t env :
  map_Forall (fun _ e => informative e) (characterCache st) ->
  map_Forall (fun _ e => informative e) (characterCache (snd (handle_deaths st r t_mw t env))).
Proof.
  intros Hcc. unfold handle_deaths.
  destruct (rateLimitMiddleware (requestLog st) (ip r) t_mw) as [ok log1].
  destruct (negb ok); [exact Hcc|].
  destruct (cache_get _ _ _ _); [exact Hcc|].
  assert (H2 : map_Forall (fun _ e => informative e)
     (characterCache (if String.eqb (ip r) "" then with_log st log1
                      else with_log (with_log st log1) (logRateLimitRequest log1 (ip r) t)))).
  { destruct (String.eqb (ip r) ""); exact Hcc. }
  destruct (negb (browser_ok env)); [exact H2|].
  destruct (fst (run_retry _ _)); try exact H2.
  apply enrich_phase_informative, H2.
Qed.

Lemma characterCache_only_informative_witness :
  map_Forall (fun _ e => informative e) (characterCache empty_state) /\
  map_Forall (fun _ e => informative e)
    (characterCache (snd (handle_deaths empty_state req20 0 0
                            (env_rows [bob_1; carol] (fun _ => detail_ok) [1; 0]%nat)))).
Proof.
  assert (H0 : map_Forall (fun _ e => informative e) (characterCache empty_state))
    by apply map_Forall_empty.
  split; [exact H0|]. apply (characterCache_only_informative empty_state req20 0 0 _ H0).
Defined.

End DeathsExtraFacts.


Module RowsFacts.
Import ServerJs Rows.

(** X9. server.js [/api/deaths] (lines 702-721), [/api/deaths-fast] (lines
    391-421) and the Railway [fetchDeathsFromRubinOT] (lines 294-324): the
    parse loop returns the first [MAX_DEATHS] rows that have at least three
    cells, a level and a player name, in page order, each passed to [mk]. *)
Theorem parse_loop_first_valid_rows {A} (mk : death -> A) (MAX_DEATHS : nat) rows :
  parse_loop mk MAX_DEATHS 0 rows = take MAX_DEATHS (map mk (omap parse_row rows)).
Proof.
  assert (H : forall c, parse_loop mk MAX_DEATHS c rows
                        = take (MAX_DEATHS - c) (map mk (omap parse_row rows))).
  { induction rows as [|rw rows IH]; intros c; simpl.
    - rewrite take_nil. reflexivity.
    - destruct (c <? MAX_DEATHS)%nat eqn:Hc.
      + apply Nat.ltb_lt in Hc. destruct (parse_row rw) as [d|]; simpl.
        * rewrite IH. replace (MAX_DEATHS - c)%nat with (S (MAX_DEATHS - S c)) by lia.
          reflexivity.
        * apply IH.
      + apply Nat.ltb_ge in Hc. replace (MAX_DEATHS - c)%nat with 0%nat by lia.
        reflexivity. }
  rewrite H, Nat.sub_0_r. reflexivity.
Qed.

End RowsFacts.

Module RailwayFacts.
Import TTLCache ServerJs Rows Railway DeathsExtra DeathsExtraFacts.

Lemma filter_rvip_Forall l : Forall (fun d => rvip d = true) (List.filter rvip l).
Proof.
  apply List.Forall_forall. intros x Hx. apply List.filter_In in Hx. apply Hx.
Qed.

Lemma rvip_filter_Forall_id v l :
  Forall (fun d => rvip d = true) l -> rvip_filter v l = l.
Proof.
  intros H. destruct v; [|reflexivity]. simpl.
  induction H as [|x l Hx _ IH]; simpl; [reflexivity|]. rewrite Hx, IH. reflexivity.
Qed.

(** X10. Railway [/api/deaths] (lines 517-600). A [vip=true] request that
    fetches from RubinOT stores the VIP-filtered list under a cache key
    that does not mention [vip]; for the next three seconds every request
    with the same cache key (the same world and level, from any client,
    with or without [vip]) is answered with that list, which holds VIP
    deaths only. *)
Theorem vip_request_caches_filtered_list st r t env rows t2 env2 r2 :
  vipFilter r = true ->
  queued env = Some rows ->
  cache_get CACHE_DURATION (rcache st) (cacheKey r) t = None ->
  t <= t2 < t + CACHE_DURATION ->
  cacheKey r2 = cacheKey r ->
  exists l,
    r_body (fst (rhandle st r t env)) = RDeaths l /\
    Forall (fun d => rvip d = true) l /\
    r_body (fst (rhandle (snd (rhandle st r t env)) r2 t2 env2)) = RDeaths l.
Proof.
  intros Hv Hq Hmiss Ht Hk.
  assert (Hfirst : rhandle st r t env = rfetch st r t env (rcache st !! cacheKey r)).
  { unfold rhandle. unfold cache_get in Hmiss.
    destruct (rcache st !! cacheKey r) as [c|]; [|reflexivity].
    destruct (t - timestamp c <? CACHE_DURATION); [discriminate|reflexivity]. }
  rewrite Hfirst. unfold rfetch. rewrite Hq. cbv zeta.
  rewrite Hv. cbn [rvip_filter].
  match goal with |- context [List.filter rvip ?D] => set (fl := List.filter rvip D) end.
  exists fl. split; [reflexivity|]. split; [apply filter_rvip_Forall|].
  unfold rhandle. rewrite Hk. simpl rcache. unfold cache_set.
  rewrite lookup_insert_eq. simpl timestamp.
  replace (t2 - t <? CACHE_DURATION) with true by (symmetry; apply Z.ltb_lt; lia).
  simpl. rewrite rvip_filter_Forall_id; [reflexivity|apply filter_rvip_Forall].
Qed.

Lemma vip_request_caches_filtered_list_witness :
  vipFilter (with_vip req20 (Some "true")) = true /\
  cacheKey (mk_request "5.6.7.8" (q_world req20) (q_minLevel req20) (q_min_level req20) None)
    = cacheKey (with_vip req20 (Some "true")) /\
  exists l,
    r_body (fst (rhandle rempty (with_vip req20 (Some "true")) 1000
                   (mk_renv (Some [header_row; row_of bob_1; row_of carol; row_of dave])
                            (fun i => if (i =? 0)%nat then Some vip_details else Some knight_thais)
                            [0; 1; 2]%nat))) = RDeaths l /\
    Forall (fun d => rvip d = true) l /\
    r_body (fst (rhandle (snd (rhandle rempty (with_vip req20 (Some "true")) 1000
                   (mk_renv (Some [header_row; row_of bob_1; row_of carol; row_of dave])
                            (fun i => if (i =? 0)%nat then Some vip_details else Some knight_thais)
                            [0; 1; 2]%nat)))
                         (mk_request "5.6.7.8" (q_world req20) (q_minLevel req20) (q_min_level req20) None)
                         2500 (mk_renv None (fun _ => None) []))) = RDeaths l.
Proof.
  split; [reflexivity|]. split; [reflexivity|].
  apply (vip_request_caches_filtered_list rempty (with_vip req20 (Some "true")) 1000 _
           [header_row; row_of bob_1; row_of carol; row_of dave]);
    [reflexivity|reflexivity|reflexivity|unfold CACHE_DURATION; lia|reflexivity].
Defined.

Lemma rhandle_miss st r now env :
  cache_get CACHE_DURATION (rcache st) (cacheKey r) now = None ->
  rhandle st r now env = rfetch st r now env (rcache st !! cacheKey r).
Proof.
  unfold rhandle, cache_get. intros Hmiss.
  destruct (rcache st !! cacheKey r) as [c|]; [|reflexivity].
  destruct (now - timestamp c <? CACHE_DURATION); [discriminate|reflexivity].
Qed.

Lemma apply_rwrites_none cc writes order :
  (forall i w, writes !! i = Some w -> w = None) -> apply_rwrites cc writes order = cc.
Proof.
  intros Hw. revert cc. induction order as [|i order IH]; intros cc; simpl; [reflexivity|].
  destruct (writes !! i) as [[[k e]|]|] eqn:Hi; try apply IH.
  discriminate (Hw _ _ Hi).
Qed.

Lemma find_char_none {B} (l : list B) p : find_char (map (fun _ => None) l) p = None.
Proof. induction l as [|x l IH]; [reflexivity|exact IH]. Qed.

Lemma uncached_none (cc : gmap string (cache_entry rchar)) (deaths : list rdeath) :
  Forall (fun d => cc !! rchar_key (player (r_death d)) = None)
    (List.filter (fun d => negb (bool_decide (is_Some (cc !! rchar_key (player (r_death d))))))
                 deaths).
Proof.
  apply List.Forall_forall. intros d Hd. apply List.filter_In in Hd as [_ Hd].
  apply negb_true_iff, bool_decide_eq_false in Hd. apply eq_None_not_Some, Hd.
Qed.

Lemma fetch_all_fail cc now (co : nat -> option char_data) (l : list rdeath) :
  (forall i, co i = None) ->
  Forall (fun d => cc !! rchar_key (player (r_death d)) = None) l ->
  imap (fun i d => fetchCharacterData cc now (co i) (player (r_death d))) l
  = map (fun _ => (None, None)) l.
Proof.
  revert co. induction l as [|d l IH]; intros co Hco Hl; [reflexivity|].
  apply List.Forall_cons_iff in Hl as [Hd Hl]. simpl. f_equal.
  - unfold fetchCharacterData. rewrite Hd, Hco. reflexivity.
  - exact (IH (fun i => co (S i)) (fun i => Hco (S i)) Hl).
Qed.

(** X11. Railway [/api/deaths] (lines 546-578). When every character fetch
    fails, nothing is written to the character cache and the answer is the
    parsed rows with the stored details of the characters that have a
    character-cache entry and the parse loop's placeholders (vocation
    "Unknown", residence and account status "Loading...", no guild) for
    the others. *)
Theorem failed_character_fetches_keep_placeholders st r now env rows :
  queued env = Some rows ->
  cache_get CACHE_DURATION (rcache st) (cacheKey r) now = None ->
  (forall i, char_outcome env i = None) ->
  rcharacterCache (snd (rhandle st r now env)) = rcharacterCache st /\
  r_body (fst (rhandle st r now env)) =
    RDeaths (rvip_filter (vipFilter r)
      (map (fun d => match rcharacterCache st !! rchar_key (player (r_death d)) with
                     | Some e => fill d (c_data (data e))
                     | None => d
                     end)
           (parse_loop placeholder MAX_DEATHS 0 rows))).
Proof.
  intros Hq Hmiss Hfail. rewrite rhandle_miss by exact Hmiss.
  unfold rfetch. rewrite Hq. cbv zeta.
  rewrite (fetch_all_fail _ _ _ _ Hfail (uncached_none _ _)).
  rewrite apply_rwrites_none.
  2:{ intros i w Hi. rewrite List.map_map, list_lookup_fmap in Hi.
      destruct (_ !! i); simpl in Hi; [|discriminate]. injection Hi as <-. reflexivity. }
  split; [reflexivity|]. simpl. do 2 f_equal.
  destruct (0 <? _)%nat; [|reflexivity].
  f_equal.
  rewrite List.map_map.
  rewrite (List.map_ext _ (fun d => d)); [apply List.map_id|].
  intros d. rewrite find_char_none. reflexivity.
Qed.

Lemma failed_character_fetches_keep_placeholders_witness :
  queued (mk_renv (Some [header_row; row_of bob_1; row_of carol]) (fun _ => None) [0; 1]%nat)
    = Some [header_row; row_of bob_1; row_of carol] /\
  cache_get CACHE_DURATION (rcache rempty) (cacheKey req20) 1000 = None /\
  (forall i, char_outcome (mk_renv (Some [header_row; row_of bob_1; row_of carol])
                                   (fun _ => None) [0; 1]%nat) i = None) /\
  rcharacterCache (snd (rhandle rempty req20 1000
       (mk_renv (Some [header_row; row_of bob_1; row_of carol]) (fun _ => None) [0; 1]%nat)))
    = rcharacterCache rempty /\
  r_body (fst (rhandle rempty req20 1000
       (mk_renv (Some [header_row; row_of bob_1; row_of carol]) (fun _ => None) [0; 1]%nat))) =
    RDeaths (rvip_filter (vipFilter req20)
      (map (fun d => match rcharacterCache rempty !! rchar_key (player (r_death d)) with
                     | Some e => fill d (c_data (data e))
                     | None => d
                     end)
           (parse_loop placeholder MAX_DEATHS 0 [header_row; row_of bob_1; row_of carol]))).
Proof.
  split; [reflexivity|]. split; [reflexivity|]. split; [reflexivity|].
  apply (failed_character_fetches_keep_placeholders rempty req20 1000 _
           [header_row; row_of bob_1; row_of carol]); reflexivity.
Defined.

Lemma fill_same_death d1 d2 c : r_death d1 = r_death d2 -> fill d1 c = fill d2 c.
Proof. unfold fill. intros ->. reflexivity. Qed.

Lemma apply_rwrites_keep cc (writes : list rcache_write) order k e :
  cc !! k = Some e ->
  (forall i k' e', writes !! i = Some (Some (k', e')) -> k' <> k) ->
  apply_rwrites cc writes order !! k = Some e.
Proof.
  intros Hk Hw. revert cc Hk. induction order as [|i order IH]; intros cc Hk; simpl; [exact Hk|].
  apply IH. destruct (writes !! i) as [[[k' e']|]|] eqn:Hi; try exact Hk.
  rewrite lookup_insert_ne by exact (Hw _ _ _ Hi). exact Hk.
Qed.

(** The character fetches of the handler only write keys that were absent. *)
Lemma uncached_writes_absent (cc : gmap string (cache_entry rchar)) now
    (co : nat -> option char_data) (deaths : list rdeath) i k' e' :
  map snd (imap (fun i d => fetchCharacterData cc now (co i) (player (r_death d)))
               (List.filter (fun d => negb (bool_decide (is_Some (cc !! rchar_key (player (r_death d))))))
                            deaths)) !! i = Some (Some (k', e')) ->
  cc !! k' = None.
Proof.
  rewrite list_lookup_fmap, list_lookup_imap.
  destruct (List.filter _ deaths !! i) as [d|] eqn:Hd; simpl; [|discriminate].
  assert (Hn : cc !! rchar_key (player (r_death d)) = None).
  { pose proof (uncached_none cc deaths) as Hall. rewrite List.Forall_forall in Hall.
    apply Hall. apply list_elem_of_In. eapply list_elem_of_lookup_2. exact Hd. }
  unfold fetchCharacterData. rewrite Hn.
  destruct (co i); simpl; [|discriminate]. intros H. injection H as <- _. exact Hn.
Qed.

(** X12. Railway [/api/deaths] (lines 546-578). The handler decides which
    characters to fetch with [characterCache.has], which ignores the age of
    the entry. So a character with an entry in the character cache, however
    old, is never fetched again: its entry is left as it is, and every row
    of that character carries the stored details, whatever the character
    pages of the other rows give. *)
Theorem cached_characters_never_refreshed st r now env rows :
  queued env = Some rows ->
  cache_get CACHE_DURATION (rcache st) (cacheKey r) now = None ->
  (forall k e, rcharacterCache st !! k = Some e ->
     rcharacterCache (snd (rhandle st r now env)) !! k = Some e) /\
  exists L,
    r_body (fst (rhandle st r now env)) = RDeaths (rvip_filter (vipFilter r) L) /\
    length L = length (parse_loop placeholder MAX_DEATHS 0 rows) /\
    (forall i d e, parse_loop placeholder MAX_DEATHS 0 rows !! i = Some d ->
       rcharacterCache st !! rchar_key (player (r_death d)) = Some e ->
       L !! i = Some (fill d (c_data (data e)))).
Proof.
  intros Hq Hmiss. rewrite rhandle_miss by exact Hmiss.
  unfold rfetch. rewrite Hq. cbv zeta.
  set (cc := rcharacterCache st).
  set (deaths := parse_loop placeholder MAX_DEATHS 0 rows).
  set (writes := map snd (imap (fun i d => fetchCharacterData cc now (char_outcome env i)
                                              (player (r_death d)))
                    (List.filter (fun d => negb (bool_decide (is_Some (cc !! rchar_key (player (r_death d))))))
                                 deaths))).
  assert (Hkeep : forall k e, cc !! k = Some e -> apply_rwrites cc writes (char_order env) !! k = Some e).
  { intros k e Hk. apply apply_rwrites_keep; [exact Hk|].
    intros i k' e' Hi Heq. subst k'.
    pose proof (uncached_writes_absent cc now (char_outcome env) deaths i k e' Hi). congruence. }
  fold writes. split; [exact Hkeep|].
  eexists. split; [reflexivity|].
  match goal with |- length (map _ ?D1) = _ /\ _ => set (deaths1 := D1) end.
  assert (Hd1 : forall i d, deaths !! i = Some d ->
            exists d1, deaths1 !! i = Some d1 /\ r_death d1 = r_death d).
  { intros i d Hi. unfold deaths1. destruct (0 <? _)%nat.
    - rewrite list_lookup_fmap, Hi. simpl. eexists. split; [reflexivity|].
      destruct (find_char _ _); reflexivity.
    - exists d. split; [exact Hi|reflexivity]. }
  split.
  - rewrite List.length_map. unfold deaths1. destruct (0 <? _)%nat; [apply List.length_map|reflexivity].
  - intros i d e Hi He. rewrite list_lookup_fmap.
    destruct (Hd1 i d Hi) as (d1 & Hi1 & Hr). rewrite Hi1. simpl.
    rewrite Hr, (Hkeep _ _ He). f_equal. apply fill_same_death, Hr.
Qed.

Lemma cached_characters_never_refreshed_witness :
  queued (mk_renv (Some [row_of bob_1; row_of carol]) (fun _ => Some knight_thais) [0%nat])
    = Some [row_of bob_1; row_of carol] /\
  cache_get CACHE_DURATION (rcache (mk_rstate ∅ old_bob)) (cacheKey req20) 100000000 = None /\
  rcharacterCache (snd (rhandle (mk_rstate ∅ old_bob) req20 100000000
      (mk_renv (Some [row_of bob_1; row_of carol]) (fun _ => Some knight_thais) [0%nat])))
    !! rchar_key "Bob" = Some (mk_entry (mk_rchar "Bob" vip_details) 0) /\
  exists L,
    r_body (fst (rhandle (mk_rstate ∅ old_bob) req20 100000000
      (mk_renv (Some [row_of bob_1; row_of carol]) (fun _ => Some knight_thais) [0%nat])))
      = RDeaths (rvip_filter (vipFilter req20) L) /\
    L !! 0%nat = Some (fill (placeholder bob_1) vip_details).
Proof.
  pose proof (cached_characters_never_refreshed (mk_rstate ∅ old_bob) req20 100000000
              (mk_renv (Some [row_of bob_1; row_of carol]) (fun _ => Some knight_thais) [0%nat])
              [row_of bob_1; row_of carol] eq_refl) as H.
  assert (Hc : cache_get CACHE_DURATION (rcache (mk_rstate ∅ old_bob)) (cacheKey req20) 100000000
               = None) by (vm_compute; reflexivity).
  specialize (H Hc).
  destruct H as [Hk [L [HL [_ Hi]]]].
  assert (Hp : parse_loop placeholder MAX_DEATHS 0 [row_of bob_1; row_of carol] !! 0%nat
               = Some (placeholder bob_1)) by (vm_compute; reflexivity).
  assert (Ho : rcharacterCache (mk_rstate ∅ old_bob) !! rchar_key (player (r_death (placeholder bob_1)))
               = Some (mk_entry (mk_rchar "Bob" vip_details) 0)) by (vm_compute; reflexivity).
  assert (Hb : rchar_key (player (r_death (placeholder bob_1))) = rchar_key "Bob")
    by (vm_compute; reflexivity).
  split; [reflexivity|]. split; [exact Hc|].
  split; [rewrite <- Hb; exact (Hk _ _ Ho)|].
  exists L. split; [exact HL|].
  exact (Hi 0%nat (placeholder bob_1) (mk_entry (mk_rchar "Bob" vip_details) 0) Hp Ho).
Defined.

End RailwayFacts.


Module FastLatestFacts.
Import TTLCache RateLimit ServerJs Rows FastLatest DeathsExtra.

Lemma admit_srv_slots st r t_mw :
  fastDeathsCache (snd (pass_middleware st r t_mw)) = fastDeathsCache st /\
  fastDeathsTimestamp (snd (pass_middleware st r t_mw)) = fastDeathsTimestamp st /\
  latestDeathCache (snd (pass_middleware st r t_mw)) = latestDeathCache st /\
  latestDeathTimestamp (snd (pass_middleware st r t_mw)) = latestDeathTimestamp st /\
  characterCache (srv (snd (pass_middleware st r t_mw))) = characterCache (srv st).
Proof.
  unfold pass_middleware. destruct (rateLimitMiddleware _ _ _). repeat split.
Qed.

Lemma handle_fast_eq st r t_mw t env :
  handle_fast st r t_mw t env =
  let '(ok, st1) := pass_middleware st r t_mw in
  if negb ok then (Some TooMany429, st1)
  else if fast_hit st1 r t then
    (match fastDeathsCache st1 with Some (_, ds) => Some (FastDeaths ds) | None => None end, st1)
  else fast_miss st1 r t env.
Proof.
  unfold handle_fast. destruct (pass_middleware st r t_mw) as [ok st1].
  destruct (negb ok); [reflexivity|].
  unfold fast_hit. destruct (fastDeathsCache st1) as [[k ds]|]; [|reflexivity].
  destruct (_ && _); reflexivity.
Qed.

Lemma log_miss_slots st r t :
  fastDeathsCache (log_miss st r t) = fastDeathsCache st /\
  latestDeathCache (log_miss st r t) = latestDeathCache st /\
  latestDeathTimestamp (log_miss st r t) = latestDeathTimestamp st /\
  characterCache (srv (log_miss st r t)) = characterCache (srv st).
Proof. unfold log_miss. destruct (String.eqb (ip r) ""); repeat split. Qed.

Lemma fast_miss_answer st r tm t env l :
  fast_hit (snd (pass_middleware st r tm)) r t = false ->
  fst (handle_fast st r tm t env) = Some (FastDeaths l) ->
  exists st2, handle_fast st r tm t env
              = (Some (FastDeaths l), with_fast st2 (Some (fastCacheKey r, l)) t).
Proof.
  rewrite handle_fast_eq. destruct (pass_middleware st r tm) as [ok st1]. simpl. intros Hmiss.
  destruct ok; simpl; [|discriminate]. rewrite Hmiss. unfold fast_miss. cbv zeta.
  destruct (a_browser_ok env && a_page_ok env); simpl; [|discriminate].
  intros H. injection H as <-. eexists; reflexivity.
Qed.

(** X13. server.js [/api/deaths-fast] (lines 337-429). The fast cache has a
    single slot. After a request that missed it and was answered with the
    list [l], a request made within the next two seconds with the same world
    and level filter is answered with [l] (if the middleware lets it
    through); a request with another world or level filter gets the same
    answer as with an empty slot, whenever it comes. *)
Theorem fast_slot_serves_last_key st r1 tm1 t1 env1 l r2 tm2 t2 env2 :
  fast_hit (snd (pass_middleware st r1 tm1)) r1 t1 = false ->
  fst (handle_fast st r1 tm1 t1 env1) = Some (FastDeaths l) ->
  (fastCacheKey r2 = fastCacheKey r1 ->
   t1 <= t2 < t1 + FAST_DEATHS_CACHE ->
   fst (rateLimitMiddleware (requestLog (srv (snd (handle_fast st r1 tm1 t1 env1)))) (ip r2) tm2)
     = true ->
   fst (handle_fast (snd (handle_fast st r1 tm1 t1 env1)) r2 tm2 t2 env2) = Some (FastDeaths l)) /\
  (fastCacheKey r2 <> fastCacheKey r1 ->
   fst (handle_fast (snd (handle_fast st r1 tm1 t1 env1)) r2 tm2 t2 env2)
   = fst (handle_fast (with_fast (snd (handle_fast st r1 tm1 t1 env1)) None 0) r2 tm2 t2 env2)).
Proof.
  intros Hmiss Hans.
  destruct (fast_miss_answer _ _ _ _ _ _ Hmiss Hans) as [st2 E]. rewrite E. simpl snd.
  split.
  - intros Hk Ht Hok. rewrite handle_fast_eq. unfold pass_middleware. simpl in Hok |- *.
    destruct (rateLimitMiddleware (requestLog (srv st2)) (ip r2) tm2) as [ok2 log2].
    simpl in Hok. subst ok2. simpl.
    unfold fast_hit. simpl. rewrite Hk, String.eqb_refl.
    replace (t2 - t1 <? FAST_DEATHS_CACHE) with true by (symmetry; apply Z.ltb_lt; lia).
    reflexivity.
  - intros Hk. rewrite !handle_fast_eq. unfold pass_middleware. simpl.
    destruct (rateLimitMiddleware (requestLog (srv st2)) (ip r2) tm2) as [ok2 log2].
    destruct (negb ok2); [reflexivity|].
    unfold fast_hit. simpl.
    replace (String.eqb (fastCacheKey r1) (fastCacheKey r2)) with false
      by (symmetry; apply String.eqb_neq; congruence).
    simpl. unfold fast_miss, log_miss. simpl.
    destruct (String.eqb (ip r2) ""); simpl;
      destruct (a_browser_ok env2 && a_page_ok env2); reflexivity.
Qed.

Lemma fast_slot_serves_last_key_witness :
  fast_hit (snd (pass_middleware app0 (req_world "20" "1.2.3.4") 1000)) (req_world "20" "1.2.3.4") 1000 = false /\
  fst (handle_fast app0 (req_world "20" "1.2.3.4") 1000 1000 env_worlds) = Some (FastDeaths []) /\
  (fastCacheKey (req_world "21" "5.6.7.8") = fastCacheKey (req_world "20" "1.2.3.4") ->
   1000 <= 1500 < 1000 + FAST_DEATHS_CACHE ->
   fst (rateLimitMiddleware
          (requestLog (srv (snd (handle_fast app0 (req_world "20" "1.2.3.4") 1000 1000 env_worlds))))
          (ip (req_world "21" "5.6.7.8")) 1500) = true ->
   fst (handle_fast (snd (handle_fast app0 (req_world "20" "1.2.3.4") 1000 1000 env_worlds))
          (req_world "21" "5.6.7.8") 1500 1500 env_worlds) = Some (FastDeaths [])) /\
  (fastCacheKey (req_world "21" "5.6.7.8") <> fastCacheKey (req_world "20" "1.2.3.4") ->
   fst (handle_fast (snd (handle_fast app0 (req_world "20" "1.2.3.4") 1000 1000 env_worlds))
          (req_world "21" "5.6.7.8") 1500 1500 env_worlds)
   = fst (handle_fast (with_fast (snd (handle_fast app0 (req_world "20" "1.2.3.4") 1000 1000 env_worlds))
                                 None 0)
          (req_world "21" "5.6.7.8") 1500 1500 env_worlds)).
Proof.
  split; [reflexivity|]. split; [reflexivity|].
  apply (fast_slot_serves_last_key app0 (req_world "20" "1.2.3.4") 1000 1000 env_worlds []
           (req_world "21" "5.6.7.8") 1500 1500 env_worlds); reflexivity.
Defined.

Lemma handle_latest_eq st r t_mw t env :
  handle_latest st r t_mw t env =
  let '(ok, st1) := pass_middleware st r t_mw in
  if negb ok then (Some TooMany429, st1)
  else if latest_hit st1 t then
    (match latestDeathCache st1 with Some x => Some (LatestDeath x) | None => None end, st1)
  else latest_miss st1 r t env.
Proof.
  unfold handle_latest. destruct (pass_middleware st r t_mw) as [ok st1].
  destruct (negb ok); [reflexivity|].
  unfold latest_hit. destruct (latestDeathCache st1) as [x|]; [|reflexivity].
  destruct (_ <? _); reflexivity.
Qed.

Lemma latest_miss_answer st r tm t env x :
  latest_hit (snd (pass_middleware st r tm)) t = false ->
  fst (handle_latest st r tm t env) = Some (LatestDeath x) ->
  exists st2, handle_latest st r tm t env = (Some (LatestDeath x), with_latest st2 (Some x) t).
Proof.
  rewrite handle_latest_eq. destruct (pass_middleware st r tm) as [ok st1]. simpl. intros Hmiss.
  destruct ok; simpl; [|discriminate]. rewrite Hmiss. unfold latest_miss. cbv zeta.
  destruct (a_browser_ok env && a_page_ok env); simpl; [|discriminate].
  destruct (latest_eval _ _) as [ld|]; [|discriminate].
  destruct (fetchSingleCharacter _ _ _ _) as [[[ld' cd] w]|]; [|discriminate].
  intros H. injection H as <-. eexists; reflexivity.
Qed.

(** X14. server.js [/api/latest-death] (lines 443-523). Its cache ignores the
    [world] parameter: after a request for one world that missed the cache
    and was answered with a death [x], every request let through by the
    middleware in the next two seconds, for any world, is answered with
    [x]. *)
Theorem latest_cache_ignores_world st r1 tm1 t1 env1 x r2 tm2 t2 env2 :
  latest_hit (snd (pass_middleware st r1 tm1)) t1 = false ->
  fst (handle_latest st r1 tm1 t1 env1) = Some (LatestDeath x) ->
  t1 <= t2 < t1 + LATEST_DEATH_CACHE ->
  fst (rateLimitMiddleware (requestLog (srv (snd (handle_latest st r1 tm1 t1 env1)))) (ip r2) tm2)
    = true ->
  fst (handle_latest (snd (handle_latest st r1 tm1 t1 env1)) r2 tm2 t2 env2) = Some (LatestDeath x).
Proof.
  intros Hmiss Hans Ht Hok.
  destruct (latest_miss_answer _ _ _ _ _ _ Hmiss Hans) as [st2 E]. rewrite E in Hok |- *.
  simpl snd in Hok |- *.
  rewrite handle_latest_eq. unfold pass_middleware. simpl in Hok |- *.
  destruct (rateLimitMiddleware (requestLog (srv st2)) (ip r2) tm2) as [ok2 log2].
  simpl in Hok. subst ok2. simpl.
  unfold latest_hit. simpl.
  replace (t2 - t1 <? LATEST_DEATH_CACHE) with true by (symmetry; apply Z.ltb_lt; lia).
  reflexivity.
Qed.

Lemma latest_cache_ignores_world_witness :
  latest_hit (snd (pass_middleware app0 (req_world "20" "1.2.3.4") 1000)) 1000 = false /\
  fst (handle_latest app0 (req_world "20" "1.2.3.4") 1000 1000 env_worlds)
    = Some (LatestDeath (mk_latest "Bob" "" "Died at Level 200" 1000, knight_thais)) /\
  1000 <= 2000 < 1000 + LATEST_DEATH_CACHE /\
  fst (rateLimitMiddleware
         (requestLog (srv (snd (handle_latest app0 (req_world "20" "1.2.3.4") 1000 1000 env_worlds))))
         "5.6.7.8" 2000) = true /\
  fst (handle_latest (snd (handle_latest app0 (req_world "20" "1.2.3.4") 1000 1000 env_worlds))
         (req_world "21" "5.6.7.8") 2000 2000 env_worlds)
    = Some (LatestDeath (mk_latest "Bob" "" "Died at Level 200" 1000, knight_thais)).
Proof.
  assert (H1 : fst (handle_latest app0 (req_world "20" "1.2.3.4") 1000 1000 env_worlds)
    = Some (LatestDeath (mk_latest "Bob" "" "Died at Level 200" 1000, knight_thais)))
    by (vm_compute; reflexivity).
  assert (H2 : fst (rateLimitMiddleware
         (requestLog (srv (snd (handle_latest app0 (req_world "20" "1.2.3.4") 1000 1000 env_worlds))))
         "5.6.7.8" 2000) = true) by (vm_compute; reflexivity).
  split; [reflexivity|]. split; [exact H1|]. split; [unfold LATEST_DEATH_CACHE; lia|].
  split; [exact H2|].
  apply (latest_cache_ignores_world app0 (req_world "20" "1.2.3.4") 1000 1000 env_worlds _
           (req_world "21" "5.6.7.8") 2000 2000 env_worlds);
    [reflexivity|exact H1|unfold LATEST_DEATH_CACHE; lia|exact H2].
Defined.

Lemma fetchSingleCharacter_write_informative cc now denv ld x k e :
  fetchSingleCharacter cc now denv ld = Fulfilled (x, Some (k, e)) -> informative e.
Proof.
  unfold fetchSingleCharacter.
  destruct (cache_get _ _ _ _); [discriminate|].
  destruct (newPage_ok denv); simpl; [|discriminate].
  destruct (setup_ok denv); simpl; [|discriminate].
  set (cd := fetchCharacterData (page_outcome denv)).
  destruct (negb (String.eqb (vocation cd) "Unknown") || negb (String.eqb (residence cd) "Unknown"))
    eqn:Hinf.
  2:{ destruct (close_ok denv); discriminate. }
  intros Hf.
  assert (He : e = mk_entry cd now) by (destruct (close_ok denv); congruence).
  subst e. unfold informative. simpl.
  apply orb_true_iff in Hinf as [Hv|Hv]; apply negb_true_iff, String.eqb_neq in Hv;
    [left|right]; exact Hv.
Qed.

(** X15. server.js [/api/latest-death] and [fetchSingleCharacter] (lines
    302-308): like [/api/deaths], the latest-death endpoint only stores
    details with a known vocation or residence in the shared character
    cache. *)
Theorem latest_keeps_characterCache_informative st r t_mw t env :
  map_Forall (fun _ e => informative e) (characterCache (srv st)) ->
  map_Forall (fun _ e => informative e) (characterCache (srv (snd (handle_latest st r t_mw t env)))).
Proof.
  intros Hcc. rewrite handle_latest_eq.
  destruct (pass_middleware st r t_mw) as [ok st1] eqn:Ha.
  assert (H1 : map_Forall (fun _ e => informative e) (characterCache (srv st1))).
  { pose proof (admit_srv_slots st r t_mw) as (_ & _ & _ & _ & Hc). rewrite Ha in Hc.
    simpl in Hc. rewrite Hc. exact Hcc. }
  destruct (negb ok); [exact H1|].
  destruct (latest_hit st1 t); [exact H1|].
  unfold latest_miss. cbv zeta.
  assert (H2 : map_Forall (fun _ e => informative e) (characterCache (srv (log_miss st1 r t)))).
  { pose proof (log_miss_slots st1 r t) as (_ & _ & _ & Hc). rewrite Hc. exact H1. }
  destruct (_ && _); [|exact H2]. simpl.
  destruct (latest_eval _ _) as [ld|]; [|exact H2].
  destruct (fetchSingleCharacter _ _ _ _) as [[[ld' cd] w]|] eqn:Hf; [|exact H2].
  simpl. destruct w as [[k e]|]; [|exact H2].
  apply map_Forall_insert_2; [|exact H2].
  exact (fetchSingleCharacter_write_informative _ _ _ _ _ _ _ Hf).
Qed.

Lemma latest_keeps_characterCache_informative_witness :
  map_Forall (fun _ e => informative e) (characterCache (srv app0)) /\
  map_Forall (fun _ e => informative e)
    (characterCache (srv (snd (handle_latest app0 (req_world "20" "1.2.3.4") 1000 1000 env_worlds)))).
Proof.
  assert (H0 : map_Forall (fun _ e => informative e) (characterCache (srv app0)))
    by apply map_Forall_empty.
  split; [exact H0|].
  apply (latest_keeps_characterCache_informative app0 (req_world "20" "1.2.3.4") 1000 1000
           env_worlds H0).
Defined.

End FastLatestFacts.


Module RailwayBrowserFacts.
Import RailwayBrowser.

Lemma rcount_insert (l : list rtask) i t t' :
  l !! i = Some t ->
  (length (List.filter is_rlaunching (<[i:=t']> l)) + (if is_rlaunching t then 1 else 0)
   = length (List.filter is_rlaunching l) + (if is_rlaunching t' then 1 else 0))%nat.
Proof.
  revert i; induction l as [|x l IH]; intros [|i] H; simpl in *; try discriminate.
  - injection H as ->. destruct (is_rlaunching t), (is_rlaunching t'); simpl; lia.
  - specialize (IH i H). destruct (is_rlaunching x); simpl; lia.
Qed.

Lemma rbinv_init : rbinv rinit.
Proof.
  unfold rbinv, rinit, rshared_set, rlaunches_in_flight; simpl.
  split; [reflexivity|]. split; [set_solver|discriminate].
Qed.

Lemma rbinv_run_prefix st i t :
  rbinv st -> tasks st !! i = Some t -> is_rlaunching t = false -> rbinv (run_prefix st i).
Proof.
  intros (Hc & Hl & Hn) Hi Ht.
  assert (Hset : forall t', length (List.filter is_rlaunching (<[i:=t']> (tasks st)))
                            = (rlaunches_in_flight st + if is_rlaunching t' then 1 else 0)%nat).
  { intros t'. pose proof (rcount_insert _ _ _ t' Hi) as H. unfold rlaunches_in_flight.
    rewrite Ht in H. lia. }
  unfold rbinv, run_prefix, set_task, rlaunches_in_flight, rshared_set in *.
  destruct (sharedBrowser st) as [b|] eqn:Hs.
  - case_bool_decide as Hb.
    + simpl. rewrite Hset. simpl. split; [lia|]. split; assumption.
    + destruct (browserLaunching st) eqn:HL; simpl; rewrite Hset; simpl.
      * split; [lia|]. split; assumption.
      * split; [lia|]. split; [set_solver|]. intros _. set_solver.
  - destruct (browserLaunching st) eqn:HL; simpl; rewrite Hset; simpl.
    + split; [lia|]. split; assumption.
    + split; [lia|]. split; [set_solver|]. intros _. set_solver.
Qed.

Lemma rbinv_wake st i :
  rbinv st -> tasks st !! i = Some RPolling -> rbinv (wake st i).
Proof.
  intros (Hc & Hl & Hn) Hi.
  assert (Hset : forall t', is_rlaunching t' = false ->
            length (List.filter is_rlaunching (<[i:=t']> (tasks st))) = rlaunches_in_flight st).
  { intros t' Ht'. pose proof (rcount_insert _ _ _ t' Hi) as H. unfold rlaunches_in_flight.
    rewrite Ht' in H. simpl in H. lia. }
  unfold rbinv, wake, set_task, rlaunches_in_flight, rshared_set in *.
  destruct (browserLaunching st); simpl; (rewrite Hset; [|reflexivity]); auto.
Qed.

Lemma rbinv_launch_ok st i :
  rbinv st -> tasks st !! i = Some RLaunching -> rbinv (launch_ok st i).
Proof.
  intros (Hc & Hl & Hn) Hi.
  pose proof (rcount_insert _ _ _ (RReturned (Some (next_id st))) Hi) as H. simpl in H.
  unfold rbinv, launch_ok, rlaunches_in_flight, rshared_set in *; simpl.
  destruct (browserLaunching st) eqn:HL; [|lia].
  specialize (Hn eq_refl).
  split; [lia|]. split; [set_solver|discriminate].
Qed.

Lemma rbinv_launch_fail st i :
  rbinv st -> tasks st !! i = Some RLaunching -> rbinv (launch_fail st i).
Proof.
  intros (Hc & Hl & Hn) Hi.
  pose proof (rcount_insert _ _ _ RThrew Hi) as H. simpl in H.
  unfold rbinv, launch_fail, rlaunches_in_flight, rshared_set in *; simpl.
  destruct (browserLaunching st) eqn:HL; [|lia].
  split; [lia|]. split; [exact Hl|discriminate].
Qed.

Lemma rbinv_disconnect st b : rbinv st -> rbinv (disconnect st b).
Proof.
  intros (Hc & Hl & Hn).
  unfold rbinv, disconnect, rlaunches_in_flight, rshared_set in *; simpl.
  split; [exact Hc|]. split; [set_solver|]. intros HL. specialize (Hn HL). set_solver.
Qed.

Lemma rbinv_call st : rbinv st -> rbinv (call st).
Proof.
  intros Hinv. unfold call.
  apply (rbinv_run_prefix _ _ REntry); [| |reflexivity].
  - destruct Hinv as (Hc & Hl & Hn).
    unfold rbinv, rlaunches_in_flight, rshared_set in *; simpl.
    rewrite List.filter_app. simpl. rewrite app_nil_r. auto.
  - simpl. apply list_lookup_middle. reflexivity.
Qed.

Lemma rbinv_reachable st : rreachable st -> rbinv st.
Proof.
  induction 1 as [|st st' _ IH Hs]; [exact rbinv_init|].
  destruct Hs as [st|st i Hi|st i Hi|st i Hi|st b Hb].
  - apply rbinv_call, IH.
  - apply rbinv_wake; auto.
  - apply rbinv_launch_ok; auto.
  - apply rbinv_launch_fail; auto.
  - apply rbinv_disconnect, IH.
Qed.

(** X16. Railway [getBrowser] (lines 356-396). In every reachable state at most
    one [puppeteer.launch] is pending, exactly while [browserLaunching] is
    set, and a caller that polls never launches: its timer leaves the
    launches and [browserLaunching] as they are. Woken while a launch is
    pending, it keeps polling; woken when none is pending, it resolves with
    [sharedBrowser] as it is, without checking that it is connected. Woken
    right after the launch succeeds, it receives the new, connected browser;
    woken right after the launch fails, it resolves with the old
    [sharedBrowser], [null] or a browser that is not connected. *)
Theorem railway_pollers_never_launch st :
  rreachable st ->
  (rlaunches_in_flight st <= 1)%nat /\
  (browserLaunching st = true <-> rlaunches_in_flight st = 1%nat) /\
  (forall i, tasks st !! i = Some RPolling ->
     rlaunches_in_flight (wake st i) = rlaunches_in_flight st /\
     browserLaunching (wake st i) = browserLaunching st /\
     (browserLaunching st = true -> tasks (wake st i) !! i = Some RPolling) /\
     (browserLaunching st = false ->
        tasks (wake st i) !! i = Some (RReturned (sharedBrowser st)))) /\
  (forall i j, tasks st !! j = Some RLaunching -> tasks st !! i = Some RPolling ->
     tasks (wake (launch_ok st j) i) !! i = Some (RReturned (Some (next_id st))) /\
     next_id st ∈ live (wake (launch_ok st j) i)) /\
  (forall i j, tasks st !! j = Some RLaunching -> tasks st !! i = Some RPolling ->
     tasks (wake (launch_fail st j) i) !! i = Some (RReturned (sharedBrowser st)) /\
     forall b, sharedBrowser st = Some b -> b ∉ live (wake (launch_fail st j) i)).
Proof.
  intros Hr. pose proof (rbinv_reachable _ Hr) as (Hc & Hl & Hn).
  assert (HL : forall j, tasks st !! j = Some RLaunching -> browserLaunching st = true).
  { intros j Hj. destruct (browserLaunching st) eqn:E; [reflexivity|].
    unfold rlaunches_in_flight in Hc.
    assert (Hin : In RLaunching (List.filter is_rlaunching (tasks st))).
    { apply List.filter_In. split; [|reflexivity].
      apply list_elem_of_In. apply list_elem_of_lookup_2 with j. exact Hj. }
    simpl in Hc. apply List.length_zero_iff_nil in Hc. rewrite Hc in Hin. contradiction. }
  split; [rewrite Hc; destruct (browserLaunching st); lia|].
  split; [rewrite Hc; destruct (browserLaunching st); split; congruence|].
  split.
  { intros i Hi.
    assert (Hset : forall t', is_rlaunching t' = false ->
              length (List.filter is_rlaunching (<[i:=t']> (tasks st))) = rlaunches_in_flight st).
    { intros t' Ht'. pose proof (rcount_insert _ _ _ t' Hi) as H. unfold rlaunches_in_flight.
      rewrite Ht' in H. simpl in H. lia. }
    assert (Hlt : (i < length (tasks st))%nat) by (apply lookup_lt_is_Some_1; eauto).
    unfold wake, set_task, rlaunches_in_flight.
    destruct (browserLaunching st); simpl; (rewrite Hset; [|reflexivity]).
    - split; [reflexivity|]. split; [reflexivity|]. split; [|discriminate].
      intros _. apply list_lookup_insert_eq. exact Hlt.
    - split; [reflexivity|]. split; [reflexivity|]. split; [discriminate|].
      intros _. apply list_lookup_insert_eq. exact Hlt. }
  split.
  { intros i j Hj Hi.
    unfold wake, launch_ok, set_task; simpl. split; [|set_solver].
    apply list_lookup_insert_eq. rewrite length_insert.
    apply lookup_lt_is_Some_1. eauto. }
  intros i j Hj Hi.
  specialize (Hn (HL j Hj)).
  unfold wake, launch_fail, set_task; simpl. split.
  - apply list_lookup_insert_eq. rewrite length_insert.
    apply lookup_lt_is_Some_1. eauto.
  - intros b _. rewrite Hn. set_solver.
Qed.

Lemma railway_pollers_never_launch_witness :
  rreachable (call (call (call rinit))) /\
  tasks (wake (launch_fail (call (call (call rinit))) 0) 1) !! 1%nat = Some (RReturned None) /\
  tasks (wake (launch_ok (call (call (call rinit))) 0) 2) !! 2%nat = Some (RReturned (Some 0%nat)).
Proof.
  assert (Hr : rreachable (call (call (call rinit)))).
  { do 3 (eapply rreach_step; [|apply rstep_call]). apply rreach_init. }
  split; [exact Hr|].
  pose proof (railway_pollers_never_launch _ Hr) as (_ & _ & _ & Hok & Hfail).
  split.
  - exact (proj1 (Hfail 1%nat 0%nat eq_refl eq_refl)).
  - exact (proj1 (Hok 2%nat 0%nat eq_refl eq_refl)).
Defined.

End RailwayBrowserFacts.
